(** * Cython/CodeWriter.py: the tree serializer

    A shallow embedding of [LinesResult], [DeclarationWriter], [CodeWriter]
    and [PxdWriter], and the properties of the serializer stated over it.

    The writers are Python classes over [TreeVisitor]; every [visit_*]
    method mutates the writer and returns nothing.  Here a method is a
    function from the writer's state to an outcome: either the state after
    a normal return, or the exception raised together with the state the
    writer was left in.  Nothing in the serializer catches an exception,
    so sequencing stops at the first one.

    [TreeVisitor] and the node classes are outside this file's source;
    what is taken from them (the dispatch on the classes of a node, the
    order of [visitchildren], the attributes of each kind) is marked
    where it is defined. *)

From Stdlib Require Import ZArith List String Ascii Bool Lia.
From Stdlib Require Import DecimalString DecimalZ.
From stdpp Require Import gmap strings.

Local Open Scope Z_scope.
Local Open Scope string_scope.
Import ListNotations.

(** ** The tree *)

(** Identity of a temporary handle (handles are compared by identity). *)
Definition handle := nat.

(** Modelled from the spec: the node classes live in Cython.Compiler.Nodes
    and Cython.Compiler.ExprNodes, which are not part of the serializer.
    A node is an object with a type and attributes.  [Node type fields]
    carries the names of the classes of the node, the concrete class first
    and its ancestors after it in resolution order (the root class [Node]
    is implicit, see [mro]); [fields] lists, for the shape of each kind,
    the attributes that the serializer reads, under their Python names.
    Where a method reads through an attribute without dispatching on it
    ([node.iterator.sequence], [node.entry.name], ...) the field holds what
    is read and is named after the path; the template arguments of a
    [TemplatedTypeNode] are the list the method iterates over,
    [node.positional_args + node.keyword_args.key_value_pairs].  The [cascade] chain of a
    comparison, a linked list of [CascadedCmpNode] ended by [None], is the
    list of its links, each with its own [operator] and [operand2]; an
    [if_clauses] entry is the [condition] and [body] of an
    [IfClauseNode]. *)
Inductive node : Type :=
| Node (type : list string) (fields : attrs)
with attrs : Type :=
(* kinds read by DeclarationWriter *)
| ModuleNode (body : node)
| StatListNode (stats : list node)
| CDefExternNode (include_file : option string) (body : node)
| CPtrDeclaratorNode (base : node)
| CReferenceDeclaratorNode (base : node)
| CArrayDeclaratorNode (base : node) (dimension : option node)
| CFuncDeclaratorNode (base : node) (args : list node)
| CNameDeclaratorNode (name : string) (default : option node)
| CSimpleBaseTypeNode (name : option string) (is_basic_c_type : bool)
    (signed : Z) (longness : Z) (is_self_arg : bool)
| CComplexBaseTypeNode (base_type : node) (declarator : node)
| CNestedBaseTypeNode (base_type : node) (name : string)
| TemplatedTypeNode (base_type_node : node)
    (positional_args_keyword_args_key_value_pairs : list node)
| CVarDefNode (base_type : node) (declarators : list node)
| CStructOrUnionDefNode (name : option string) (cname : option string)
    (typedef_flag : bool) (visibility : string) (packed : bool)
    (kind : string) (attributes : option (list node))
| CppClassNode (name : option string) (cname : option string)
    (templates : list string) (base_classes : list string)
    (attributes : option (list node))
| CEnumDefNode (name : option string) (cname : option string)
    (items : option (list node))
| CEnumDefItemNode (name : string) (cname : option string)
    (value : option node)
| CClassDefNode (module_name : option string) (decorators : list node)
    (class_name : string) (base_class_name : option string)
    (base_class_module : option string) (body : node)
| PyClassDefNode (name : string) (classobj_bases : option node) (body : node)
| CTypeDefNode (base_type : node) (declarator : node)
| FuncDefNode (entry_name : option string) (name : string) (args : list node)
    (star_arg_name : option string) (starstar_arg_name : option string)
    (body : node)
| CArgDeclNode (base_type : node) (declarator : node) (default : option node)
| CImportStatNode (module_name : string) (as_name : option string)
| FromCImportStatNode (module_name : string)
    (imported_names : list (string * option string * option string))
| NameNode (name : string)
| IntNode (value : string)
| NoneNode
| NotNode (operand : node)
| DecoratorNode (decorator : node)
| BinopNode (operand1 : node) (operator : string) (operand2 : node)
| AttributeNode (obj : node) (attribute : string)
| BoolNode (value : bool)
| StringNode (value : string)
| PassStatNode
| ListNode (args : list node)
| TupleNode (args : list node)
| UnicodeNode (value : string)
| AssertStatNode (cond : node) (value : option node)
(* kinds read by CodeWriter *)
| SingleAssignmentNode (lhs : node) (rhs : node)
| CascadedAssignmentNode (lhs_list : list node) (rhs : node)
| PrintStatNode (arg_tuple_args : list node) (append_newline : bool)
| ForInStatNode (target : node) (iterator_sequence : node) (body : node)
    (else_clause : option node)
| IfStatNode (if_clauses : list (node * node)) (else_clause : option node)
| SequenceNode (args : list node)
| SimpleCallNode (function : node) (args : option (list node))
    (arg_tuple_args : option (list node))
| GeneralCallNode (function : node) (positional_args : node + list node)
    (keyword_args : option node) (starstar_arg : option node)
| AsTupleNode (arg : node)
| ExprStatNode (expr : node)
| InPlaceAssignmentNode (lhs : node) (operator : string) (rhs : node)
| WithStatNode (manager : node) (target : option node) (body : node)
| TryFinallyStatNode (body : node) (finally_clause : node)
| TryExceptStatNode (body : node) (except_clauses : list node)
    (else_clause : option node)
| ExceptClauseNode (pattern : option node) (target : option node)
    (body : node)
| ReturnStatNode (value : option node)
| ReraiseStatNode
| ImportNode (module_name_value : string)
| TempsBlockNode (temps : list handle) (body : node)
| TempRefNode (h : handle)
| BytesNode (value : string)
| ContinueStatNode
| WhileStatNode (condition : node) (body : node) (else_clause : option node)
| BreakStatNode
| CoerceToBooleanNode (arg : node)
| FloatNode (value : string)
| CoerceToTempNode (arg : node)
| FromImportStatNode (module_module_name_value : string)
    (module_name_list_values : list string)
| PrimaryCmpNode (operand1 : node) (operator : string) (operand2 : node)
    (cascade : list (string * node))
| BoolBinopNode (operand1 : node) (operator : string) (operand2 : node)
| IndexNode (base : node) (index : node)
| NullNode
| RaiseStatNode (exc_type : option node) (exc_value : option node)
    (exc_tb : option node)
| CFuncDefNode (modifiers : list string) (overridable : bool)
    (visibility : string) (api : bool) (declarator : node) (body : node)
(* any other kind: none of its attributes is read *)
| OtherNode.

Definition type_of (n : node) : list string :=
  match n with Node type _ => type end.

Definition fields_of (n : node) : attrs :=
  match n with Node _ fields => fields end.

(** ** Exceptions and outcomes *)

Inductive exn : Type :=
| AssertionError (msg : string) (arg : option node)
| Exception (msg : string)
| AttributeError
| TypeError
| IndexError
| KeyError (h : handle)
| RuntimeError.

(** ** LinesResult *)

Module LinesResult.

Record t : Type := mk { lines : list string; s : string }.

Definition init : t := {| lines := []; s := EmptyString |}.

Definition put (self : t) (x : string) : t :=
  {| lines := lines self; s := s self +:+ x |}.

Definition newline (self : t) : t :=
  {| lines := lines self ++ [s self]; s := EmptyString |}.

Definition putline (self : t) (x : string) : t :=
  newline (put self x).

End LinesResult.

(** ** The state of a writer *)

Record writer : Type := mkWriter {
  result : LinesResult.t;
  numindents : Z;
  tempnames : gmap handle string;
  tempblockindex : Z
}.

Definition init : writer :=
  {| result := LinesResult.init; numindents := 0;
     tempnames := ∅; tempblockindex := 0 |}.

Inductive outcome : Type :=
| Returns (w : writer)
| Raises (e : exn) (w : writer).

(** A method body. *)
Definition M : Type := writer -> outcome.

Definition ret : M := Returns.

Definition raise (e : exn) : M := fun w => Raises e w.

Definition seq (a b : M) : M :=
  fun w => match a w with
           | Returns w' => b w'
           | Raises e w' => Raises e w'
           end.

Declare Scope py_scope.
Delimit Scope py_scope with py.
Bind Scope py_scope with M.
Notation "a ;; b" := (seq a b)
  (at level 100, b at level 200, right associativity) : py_scope.
Local Open Scope py_scope.

(** [if c: body] with no [else]. *)
Definition when (c : bool) (body : M) : M := if c then body else ret.

(** [for x in l: f x]. *)
Definition for_each {A : Type} (f : A -> M) : list A -> M :=
  fix go (l : list A) : M :=
    match l with
    | [] => ret
    | x :: l' => f x ;; go l'
    end.

(** [for i, x in enumerate(l): f i x], the count starting at [i]. *)
Section Enumerate.

Context {A : Type} (f : Z -> A -> M).

Fixpoint for_each_enum_from (i : Z) (l : list A) {struct l} : M :=
  match l with
  | [] => ret
  | x :: l' => f i x ;; for_each_enum_from (i + 1) l'
  end.

Definition for_each_enum : list A -> M := for_each_enum_from 0.

End Enumerate.

(** ** Python values *)

(** The character [chr 34], for text that holds a quotation mark. *)
Definition dquote : string := String (ascii_of_nat 34) EmptyString.

(** [x * n] on a string: no copy when [n <= 0]. *)
Fixpoint repeat_string (x : string) (n : nat) : string :=
  match n with
  | O => EmptyString
  | S n' => x +:+ repeat_string x n'
  end.

Definition str_mul (x : string) (n : Z) : string :=
  repeat_string x (Z.to_nat n).

(** ["%d" % n]. *)
Definition fmt_d (n : Z) : string := NilEmpty.string_of_int (Z.to_int n).

(** [str(b)] of a bool. *)
Definition str_bool (b : bool) : string := if b then "True" else "False".

(** [sep.join(l)]. *)
Definition join (sep : string) (l : list string) : string :=
  String.concat sep l.

(** [t[i]] on a tuple: negative indices count from the end. *)
Definition tuple_index {A : Type} (t : list A) (i : Z) : option A :=
  if (0 <=? i)%Z then nth_error t (Z.to_nat i)
  else if (- Z.of_nat (length t) <=? i)%Z
       then nth_error t (Z.to_nat (Z.of_nat (length t) + i))
       else None.

(** Truth value of a string-or-None. *)
Definition truthy (o : option string) : bool :=
  match o with
  | Some x => negb (String.eqb x EmptyString)
  | None => false
  end.

(** Modelled from the spec: every kind descends from the root class
    [Node], so the resolution order of a node is its classes and then
    [Node]. *)
Definition mro (n : node) : list string := type_of n ++ ["Node"].

(** [isinstance(n, classes)]. *)
Definition isinstance (n : node) (classes : list string) : bool :=
  existsb (fun c => existsb (String.eqb c) classes) (mro n).

(** ** DeclarationWriter: state and line primitives *)

Definition indent_string : string := "    ".

Definition set_result (r : LinesResult.t) (w : writer) : writer :=
  {| result := r; numindents := numindents w;
     tempnames := tempnames w; tempblockindex := tempblockindex w |}.

Definition set_numindents (k : Z) (w : writer) : writer :=
  {| result := result w; numindents := k;
     tempnames := tempnames w; tempblockindex := tempblockindex w |}.

Definition set_tempname (h : handle) (name : string) (w : writer) : writer :=
  {| result := result w; numindents := numindents w;
     tempnames := <[h := name]> (tempnames w);
     tempblockindex := tempblockindex w |}.

Definition set_tempblockindex (k : Z) (w : writer) : writer :=
  {| result := result w; numindents := numindents w;
     tempnames := tempnames w; tempblockindex := k |}.

Definition indent : M :=
  fun w => Returns (set_numindents (numindents w + 1) w).

Definition dedent : M :=
  fun w => Returns (set_numindents (numindents w - 1) w).

Definition startline (x : string) : M :=
  fun w => Returns (set_result
    (LinesResult.put (result w)
       (str_mul indent_string (numindents w) +:+ x)) w).

Definition put (x : string) : M :=
  fun w => Returns (set_result (LinesResult.put (result w) x) w).

Definition putline (x : string) : M :=
  fun w => Returns (set_result
    (LinesResult.putline (result w)
       (str_mul indent_string (numindents w) +:+ x)) w).

Definition endline (x : string) : M :=
  fun w => Returns (set_result (LinesResult.putline (result w) x) w).

Definition line (x : string) : M :=
  startline x ;; endline EmptyString.

(** [self.put(x)] where [x] may be [None]: [unicode + None] is a
    TypeError. *)
Definition put_obj (x : option string) : M :=
  match x with
  | Some x' => put x'
  | None => raise TypeError
  end.

(** ** The methods

    Inside a method, [self.visit] is the dispatching visitor of the
    writer's class; the methods are written over it and the visitor is
    closed over them in [visit] below.  [repr] is the builtin of that
    name on text, which the serializer uses for the three string
    literals. *)

Section Methods.

Variable visit : node -> M.
Variable repr : string -> string.

(** Modelled from the spec: [TreeVisitor.visitchildren] belongs to
    Cython.Compiler.Visitor.  It visits the children of a node in the
    order of the class's [child_attrs], skipping a child that is [None]
    and visiting the items of a list child in order. *)
Definition visitchild (child : option node) : M :=
  match child with
  | Some c => visit c
  | None => ret
  end.

(** *** DeclarationWriter *)

(** The suffix of an item in [comma_separated_list]:
    [if output_rhs and item.default is not None].  The attribute
    [default] belongs to declarators of a name and to arguments. *)
Definition output_default (output_rhs : bool) (item : node) : M :=
  if output_rhs then
    match item with
    | Node _ (CNameDeclaratorNode _ (Some default))
    | Node _ (CArgDeclNode _ _ (Some default)) =>
        put " = " ;; visit default
    | Node _ (CNameDeclaratorNode _ None)
    | Node _ (CArgDeclNode _ _ None) => ret
    | _ => raise AttributeError
    end
  else ret.

(** The loop over [items[:-1]] followed by [items[-1]], by recursion on
    [items]; [comma_separated_list_snoc] below gives it in the shape of
    the source. *)
Fixpoint comma_separated_list (items : list node) (output_rhs : bool) : M :=
  match items with
  | [] => ret
  | [last] => visit last
  | item :: rest =>
      visit item ;;
      output_default output_rhs item ;;
      put ", " ;;
      comma_separated_list rest output_rhs
  end.

Definition visit_Node (node : node) : M :=
  raise (AssertionError "Node not handled by serializer: %r" (Some node)).

Definition visit_ModuleNode (body : node) : M :=
  visitchild (Some body).

Definition visit_StatListNode (stats : list node) : M :=
  if (length stats =? 0)%nat then line "pass"
  else for_each visit stats.

Definition visit_CDefExternNode (include_file : option string) (body : node)
  : M :=
  let file := match include_file with
              | None => "*"
              | Some f => dquote +:+ f +:+ dquote
              end in
  putline ("cdef extern from " +:+ file +:+ ":") ;;
  indent ;;
  visit body ;;
  dedent.

Definition visit_CPtrDeclaratorNode (base : node) : M :=
  put "*" ;; visit base.

Definition visit_CReferenceDeclaratorNode (base : node) : M :=
  put "&" ;; visit base.

Definition visit_CArrayDeclaratorNode (base : node) (dimension : option node)
  : M :=
  visit base ;;
  put "[" ;;
  match dimension with
  | Some d => visit d
  | None => ret
  end ;;
  put "]".

Definition visit_CFuncDeclaratorNode (base : node) (args : list node) : M :=
  visit base ;;
  put "(" ;;
  comma_separated_list args false ;;
  endline "):".

Definition visit_CNameDeclaratorNode (name : string) : M :=
  put name.

Definition visit_CSimpleBaseTypeNode (name : option string)
    (is_basic_c_type : bool) (signed longness : Z) : M :=
  when is_basic_c_type (
    match tuple_index ["unsigned "; EmptyString; "signed "] signed with
    | Some x => put x
    | None => raise IndexError
    end ;;
    if (longness <? 0)%Z then put (str_mul "short " (- longness))
    else when (0 <? longness)%Z (put (str_mul "long " longness))) ;;
  put_obj name.

Definition visit_CComplexBaseTypeNode (base_type declarator : node) : M :=
  put "(" ;;
  visit base_type ;;
  visit declarator ;;
  put ")".

Definition visit_CNestedBaseTypeNode (base_type : node) (name : string) : M :=
  visit base_type ;;
  put "." ;;
  put name.

Definition visit_TemplatedTypeNode (base_type_node : node)
    (positional_args_keyword_args_key_value_pairs : list node) : M :=
  visit base_type_node ;;
  put "[" ;;
  comma_separated_list positional_args_keyword_args_key_value_pairs false ;;
  put "]".

Definition visit_CVarDefNode (base_type : node) (declarators : list node)
  : M :=
  startline "cdef " ;;
  visit base_type ;;
  put " " ;;
  comma_separated_list declarators true ;;
  endline EmptyString.

Definition visit_container_node (name cname : option string) (decl : string)
    (extras : option string) (attributes : option (list node)) : M :=
  startline decl ;;
  when (truthy name) (
    put " " ;;
    put_obj name ;;
    match cname with
    | Some c => put (" " +:+ dquote +:+ c +:+ dquote)
    | None => ret
    end) ;;
  when (truthy extras) (put_obj extras) ;;
  endline ":" ;;
  indent ;;
  match attributes with
  | None | Some [] => putline "pass"
  | Some attributes' => for_each visit attributes'
  end ;;
  dedent.

Definition visit_CStructOrUnionDefNode (name cname : option string)
    (typedef_flag : bool) (visibility : string) (packed : bool)
    (kind : string) (attributes : option (list node)) : M :=
  let decl := if typedef_flag then "ctypedef " else "cdef " in
  let decl := if String.eqb visibility "public" then decl +:+ "public "
              else decl in
  let decl := if packed then decl +:+ "packed " else decl in
  let decl := decl +:+ kind in
  visit_container_node name cname decl None attributes.

Definition visit_CppClassNode (name cname : option string)
    (templates base_classes : list string)
    (attributes : option (list node)) : M :=
  let extras := EmptyString in
  let extras := match templates with
                | [] => extras
                | _ => "[" +:+ join ", " templates +:+ "]"
                end in
  let extras := match base_classes with
                | [] => extras
                | _ => extras +:+ "(" +:+ join ", " base_classes +:+ ")"
                end in
  visit_container_node name cname "cdef cppclass" (Some extras) attributes.

Definition visit_CEnumDefNode (name cname : option string)
    (items : option (list node)) : M :=
  visit_container_node name cname "cdef enum" None items.

Definition visit_CEnumDefItemNode (name : string) (cname : option string)
    (value : option node) : M :=
  startline name ;;
  when (truthy cname) (
    match cname with
    | Some c => put (" " +:+ dquote +:+ c +:+ dquote)
    | None => ret
    end) ;;
  match value with
  | Some v => put " = " ;; visit v
  | None => ret
  end ;;
  endline EmptyString.

Definition visit_CClassDefNode (module_name : option string)
    (decorators : list node) (class_name : string)
    (base_class_name base_class_module : option string) (body : node) : M :=
  (if truthy module_name then raise (AssertionError EmptyString None)
   else ret) ;;
  for_each visit decorators ;;
  startline "cdef class " ;;
  put class_name ;;
  when (truthy base_class_name) (
    put "(" ;;
    when (truthy base_class_module) (
      put_obj base_class_module ;;
      put ".") ;;
    put_obj base_class_name ;;
    put ")") ;;
  endline ":" ;;
  indent ;;
  visit body ;;
  dedent.

Definition visit_PyClassDefNode (name : string) (classobj_bases : option node)
    (body : node) : M :=
  startline "class " ;;
  put name ;;
  match classobj_bases with
  | Some bases => visit bases
  | None => ret
  end ;;
  endline ":" ;;
  indent ;;
  visit body ;;
  dedent.

Definition visit_CTypeDefNode (base_type declarator : node) : M :=
  startline "ctypedef " ;;
  visit base_type ;;
  put " " ;;
  visit declarator ;;
  endline EmptyString.

Definition visit_FuncDefNode (entry_name : option string) (name : string)
    (args : list node) (star_arg_name starstar_arg_name : option string)
    (body : node) : M :=
  match entry_name with
  | Some entry_name' => startline ("def " +:+ entry_name' +:+ "(")
  | None => startline ("def " +:+ name +:+ "(")
  end ;;
  comma_separated_list args false ;;
  let arg_num := Z.of_nat (length args) in
  match star_arg_name with
  | Some star => when (0 <? arg_num)%Z (put ", ") ;; put "*" ;; put star
  | None => ret
  end ;;
  let arg_num := match star_arg_name with
                 | Some _ => arg_num + 1
                 | None => arg_num
                 end in
  match starstar_arg_name with
  | Some starstar =>
      when (0 <? arg_num)%Z (put ", ") ;; put "**" ;; put starstar
  | None => ret
  end ;;
  endline "):" ;;
  indent ;;
  visit body ;;
  dedent.

(** [node.base_type.is_self_arg] and [node.base_type.name]: attributes of
    a simple base type; a nested base type has a [name] only. *)
Definition getattr_is_self_arg (n : node) : option bool :=
  match fields_of n with
  | CSimpleBaseTypeNode _ _ _ _ is_self_arg => Some is_self_arg
  | _ => None
  end.

Definition getattr_name (n : node) : option (option string) :=
  match fields_of n with
  | CSimpleBaseTypeNode name _ _ _ _ => Some name
  | CNestedBaseTypeNode _ name => Some (Some name)
  | _ => None
  end.

Definition visit_CArgDeclNode (base_type declarator : node)
    (default : option node) : M :=
  match getattr_is_self_arg base_type with
  | None => raise AttributeError
  | Some true => put "self"
  | Some false =>
      match getattr_name base_type with
      | None => raise AttributeError
      | Some (Some _) => visit base_type ;; put " "
      | Some None => ret
      end ;;
      visit declarator ;;
      match default with
      | Some d => put " = " ;; visit d
      | None => ret
      end
  end.

Definition visit_CImportStatNode (module_name : string)
    (as_name : option string) : M :=
  startline "cimport " ;;
  put module_name ;;
  when (truthy as_name) (put " as " ;; put_obj as_name) ;;
  endline EmptyString.

Definition visit_FromCImportStatNode (module_name : string)
    (imported_names : list (string * option string * option string)) : M :=
  startline "from " ;;
  put module_name ;;
  put " cimport " ;;
  (fix loop (first : bool)
       (l : list (string * option string * option string)) {struct l} : M :=
     match l with
     | [] => ret
     | (name, as_name, kind) :: l' =>
         match kind with
         | Some _ => raise (AssertionError EmptyString None)
         | None => ret
         end ;;
         (if first then ret else put ", ") ;;
         put name ;;
         when (truthy as_name) (put " as " ;; put_obj as_name) ;;
         loop false l'
     end) true imported_names ;;
  endline EmptyString.

Definition visit_NameNode (name : string) : M := put name.

Definition visit_IntNode (value : string) : M := put value.

Definition visit_NoneNode : M := put "None".

Definition visit_NotNode (operand : node) : M :=
  put "(not " ;; visit operand ;; put ")".

Definition visit_DecoratorNode (decorator : node) : M :=
  startline "@" ;; visit decorator ;; endline EmptyString.

Definition visit_BinopNode (operand1 : node) (operator : string)
    (operand2 : node) : M :=
  visit operand1 ;;
  put (" " +:+ operator +:+ " ") ;;
  visit operand2.

Definition visit_AttributeNode (obj : node) (attribute : string) : M :=
  (if isinstance obj ["AtomicExprNode"; "AttributeNode"] then visit obj
   else put "(" ;; visit obj ;; put ")") ;;
  put ("." +:+ attribute).

Definition visit_BoolNode (value : bool) : M := put (str_bool value).

Definition visit_StringNode (value : string) : M := put (repr value).

Definition visit_PassStatNode : M :=
  startline "pass" ;; endline EmptyString.

Definition visit_ListNode (args : list node) : M :=
  put "[" ;;
  for_each (fun arg => visit arg ;; put ",") args ;;
  put "]".

Definition visit_TupleNode (args : list node) : M :=
  put "(" ;;
  for_each (fun arg => visit arg ;; put ",") args ;;
  put ")".

Definition visit_UnicodeNode (value : string) : M := put (repr value).

Definition visit_AssertStatNode (cond : node) (value : option node) : M :=
  startline "assert " ;;
  visit cond ;;
  match value with
  | Some v => put ", " ;; visit v
  | None => ret
  end ;;
  endline EmptyString.

(** *** CodeWriter *)

Definition visit_SingleAssignmentNode (lhs rhs : node) : M :=
  startline EmptyString ;;
  visit lhs ;;
  put " = " ;;
  visit rhs ;;
  endline EmptyString.

Definition visit_CascadedAssignmentNode (lhs_list : list node) (rhs : node)
  : M :=
  startline EmptyString ;;
  for_each (fun lhs => visit lhs ;; put " = ") lhs_list ;;
  visit rhs ;;
  endline EmptyString.

Definition visit_PrintStatNode (arg_tuple_args : list node)
    (append_newline : bool) : M :=
  startline "print " ;;
  comma_separated_list arg_tuple_args false ;;
  when (negb append_newline) (put ",") ;;
  endline EmptyString.

(** [for i, arg in enumerate(args): if i != 0: put(sep); visit(arg)]. *)
Definition visit_enumerated (sep : string) (args : list node) : M :=
  for_each_enum
    (fun i arg => when (negb (i =? 0)%Z) (put sep) ;; visit arg) args.

Definition visit_ForInStatNode (target iterator_sequence body : node)
    (else_clause : option node) : M :=
  startline "for " ;;
  match target with
  (* hasattr(node.target, "args") *)
  | Node _ (ListNode args) | Node _ (TupleNode args)
  | Node _ (SequenceNode args) | Node _ (CFuncDeclaratorNode _ args)
  | Node _ (FuncDefNode _ _ args _ _ _)
  | Node _ (SimpleCallNode _ (Some args) _) => visit_enumerated ", " args
  | Node _ (SimpleCallNode _ None _) => raise TypeError
  | _ => visit target
  end ;;
  put " in " ;;
  visit iterator_sequence ;;
  endline ":" ;;
  indent ;;
  visit body ;;
  dedent ;;
  match else_clause with
  | Some else_clause' =>
      line "else:" ;;
      indent ;;
      visit else_clause' ;;
      dedent
  | None => ret
  end.

Definition visit_IfStatNode (if_clauses : list (node * node))
    (else_clause : option node) : M :=
  startline "if " ;;
  match if_clauses with
  | [] => raise IndexError
  | (condition, body) :: rest =>
      visit condition ;;
      endline ":" ;;
      indent ;;
      visit body ;;
      dedent ;;
      for_each (fun clause : node * node =>
                  let (condition', body') := clause in
                  startline "elif " ;;
                  visit condition' ;;
                  endline ":" ;;
                  indent ;;
                  visit body' ;;
                  dedent) rest ;;
      match else_clause with
      | Some else_clause' =>
          line "else:" ;;
          indent ;;
          visit else_clause' ;;
          dedent
      | None => ret
      end
  end.

Definition visit_SequenceNode (args : list node) : M :=
  comma_separated_list args false.

Definition visit_SimpleCallNode (function : node) (args : option (list node))
    (arg_tuple_args : option (list node)) : M :=
  (if isinstance function
        ["AtomicExprNode"; "SimpleCallNode"; "NameNode"; "AttributeNode"]
   then visit function
   else put "(" ;; visit function ;; put ")") ;;
  put "(" ;;
  match args, arg_tuple_args with
  | Some ((_ :: _) as args'), _ => visit_enumerated "," args'
  | _, Some args' => visit_enumerated "," args'
  | _, None => visit_enumerated "," []
  end ;;
  put ")".

Definition visit_GeneralCallNode (function : node)
    (positional_args : node + list node)
    (keyword_args starstar_arg : option node) : M :=
  visit function ;;
  put "(" ;;
  match positional_args with
  | inl posarg =>
      if isinstance posarg ["AsTupleNode"] then
        match posarg with
        | Node _ (AsTupleNode arg) => visit arg
        | _ => raise AttributeError
        end
      else (* len() of a node *) raise TypeError
  | inr posarg => comma_separated_list posarg false
  end ;;
  match keyword_args, starstar_arg with
  | None, None => ret
  | _, _ => raise (Exception "Not implemented yet")
  end ;;
  put ")".

Definition visit_ExprStatNode (expr : node) : M :=
  startline EmptyString ;;
  visit expr ;;
  endline EmptyString.

Definition visit_InPlaceAssignmentNode (lhs : node) (operator : string)
    (rhs : node) : M :=
  startline EmptyString ;;
  visit lhs ;;
  put (" " +:+ operator +:+ "= ") ;;
  visit rhs ;;
  endline EmptyString.

Definition visit_WithStatNode (manager : node) (target : option node)
    (body : node) : M :=
  startline EmptyString ;;
  put "with " ;;
  visit manager ;;
  match target with
  | Some t => put " as " ;; visit t
  | None => ret
  end ;;
  endline ":" ;;
  indent ;;
  visit body ;;
  dedent.

Definition visit_TryFinallyStatNode (body finally_clause : node) : M :=
  line "try:" ;;
  indent ;;
  visit body ;;
  dedent ;;
  line "finally:" ;;
  indent ;;
  visit finally_clause ;;
  dedent.

Definition visit_TryExceptStatNode (body : node) (except_clauses : list node)
    (else_clause : option node) : M :=
  line "try:" ;;
  indent ;;
  visit body ;;
  dedent ;;
  for_each visit except_clauses ;;
  match else_clause with
  | Some else_clause' => visit else_clause'
  | None => ret
  end.

Definition visit_ExceptClauseNode (pattern target : option node)
    (body : node) : M :=
  startline "except" ;;
  match pattern with
  | Some p => put " " ;; visit p
  | None => ret
  end ;;
  match target with
  | Some t => put ", " ;; visit t
  | None => ret
  end ;;
  endline ":" ;;
  indent ;;
  visit body ;;
  dedent.

Definition visit_ReturnStatNode (value : option node) : M :=
  startline "return " ;;
  match value with
  | Some v => visit v
  | None => ret
  end ;;
  endline EmptyString.

Definition visit_ReraiseStatNode : M := line "raise".

Definition visit_ImportNode (module_name_value : string) : M :=
  line ("import " +:+ module_name_value).

(** ["$%d_%d" % (blockindex, idx)]. *)
Definition temp_name (blockindex idx : Z) : string :=
  "$" +:+ fmt_d blockindex +:+ "_" +:+ fmt_d idx.

Definition visit_TempsBlockNode (temps : list handle) (body : node) : M :=
  for_each_enum
    (fun idx h w =>
       Returns (set_tempname h (temp_name (tempblockindex w) idx) w))
    temps ;;
  (fun w => Returns (set_tempblockindex (tempblockindex w + 1) w)) ;;
  visit body.

Definition visit_TempRefNode (h : handle) : M :=
  fun w => match tempnames w !! h with
           | Some name => put name w
           | None => Raises (KeyError h) w
           end.

Definition visit_BytesNode (value : string) : M := put (repr value).

Definition visit_ContinueStatNode : M := line "continue".

Definition visit_WhileStatNode (condition body : node)
    (else_clause : option node) : M :=
  startline "while " ;;
  visit condition ;;
  endline ":" ;;
  indent ;;
  visit body ;;
  dedent ;;
  match else_clause with
  | Some else_clause' =>
      line "else:" ;;
      indent ;;
      visit else_clause' ;;
      dedent
  | None => ret
  end.

Definition visit_BreakStatNode : M := line "break".

Definition visit_CoerceToBooleanNode (arg : node) : M := visit arg.

Definition visit_FloatNode (value : string) : M := put value.

Definition visit_CoerceToTempNode (arg : node) : M := visit arg.

Definition visit_FromImportStatNode (module_module_name_value : string)
    (module_name_list_values : list string) : M :=
  startline "from " ;;
  put module_module_name_value ;;
  put " import " ;;
  endline (join ", " module_name_list_values).

(** The loop follows the [cascade] links; [operator] is read once, from
    the head of the chain, before the loop. *)
Definition visit_PrimaryCmpNode (operand1 : node) (operator : string)
    (operand2 : node) (cascade : list (string * node)) : M :=
  visit operand1 ;;
  put " " ;;
  put operator ;;
  put " " ;;
  visit operand2 ;;
  for_each (fun link : string * node =>
              put operator ;;
              visit (snd link)) cascade.

Definition visit_BoolBinopNode (operand1 : node) (operator : string)
    (operand2 : node) : M :=
  visit operand1 ;;
  put " " ;;
  put operator ;;
  put " " ;;
  visit operand2.

Definition visit_IndexNode (base index : node) : M :=
  visit base ;;
  put "[" ;;
  visit index ;;
  put "]".

Definition visit_NullNode : M := put "None".

Definition visit_RaiseStatNode (exc_type exc_value exc_tb : option node) : M :=
  startline "raise " ;;
  (visitchild exc_type ;; visitchild exc_value ;; visitchild exc_tb) ;;
  endline EmptyString.

Definition CodeWriter_visit_CFuncDefNode (declarator body : node) : M :=
  startline "def " ;;
  visit declarator ;;
  indent ;;
  visit body ;;
  dedent ;;
  endline EmptyString.

(** *** PxdWriter *)

Definition PxdWriter_visit_CFuncDefNode (modifiers : list string)
    (overridable : bool) (visibility : string) (api : bool)
    (declarator : node) : M :=
  if existsb (String.eqb "inline") modifiers then ret
  else
    (if overridable then startline "cpdef " else startline "cdef ") ;;
    when (negb (String.eqb visibility "private")) (
      put visibility ;;
      put " ") ;;
    when api (put "api ") ;;
    visit declarator.

Definition PxdWriter_visit_StatNode : M := ret.

End Methods.

(** ** Dispatch *)

(** The [visit_*] methods of the three classes. *)
Inductive method : Type :=
| m_Node | m_ModuleNode | m_StatListNode | m_CDefExternNode
| m_CPtrDeclaratorNode | m_CReferenceDeclaratorNode | m_CArrayDeclaratorNode
| m_CFuncDeclaratorNode | m_CNameDeclaratorNode | m_CSimpleBaseTypeNode
| m_CComplexBaseTypeNode | m_CNestedBaseTypeNode | m_TemplatedTypeNode
| m_CVarDefNode | m_CStructOrUnionDefNode | m_CppClassNode | m_CEnumDefNode
| m_CEnumDefItemNode | m_CClassDefNode | m_PyClassDefNode | m_CTypeDefNode
| m_FuncDefNode | m_CArgDeclNode | m_CImportStatNode | m_FromCImportStatNode
| m_NameNode | m_IntNode | m_NoneNode | m_NotNode | m_DecoratorNode
| m_BinopNode | m_AttributeNode | m_BoolNode | m_StringNode | m_PassStatNode
| m_ListNode | m_TupleNode | m_UnicodeNode | m_AssertStatNode
| m_SingleAssignmentNode | m_CascadedAssignmentNode | m_PrintStatNode
| m_ForInStatNode | m_IfStatNode | m_SequenceNode | m_SimpleCallNode
| m_GeneralCallNode | m_ExprStatNode | m_InPlaceAssignmentNode
| m_WithStatNode | m_TryFinallyStatNode | m_TryExceptStatNode
| m_ExceptClauseNode | m_ReturnStatNode | m_ReraiseStatNode | m_ImportNode
| m_TempsBlockNode | m_TempRefNode | m_BytesNode | m_ContinueStatNode
| m_WhileStatNode | m_BreakStatNode | m_CoerceToBooleanNode | m_FloatNode
| m_CoerceToTempNode | m_FromImportStatNode | m_PrimaryCmpNode
| m_BoolBinopNode | m_IndexNode | m_NullNode | m_RaiseStatNode
| m_CodeWriter_CFuncDefNode
| m_PxdWriter_CFuncDefNode | m_PxdWriter_StatNode.

Inductive writer_class : Type := DeclarationWriter | CodeWriter | PxdWriter.

(** The methods each class defines, by the class name after [visit_]. *)
Definition DeclarationWriter_methods : list (string * method) :=
  [ ("Node", m_Node); ("ModuleNode", m_ModuleNode);
    ("StatListNode", m_StatListNode); ("CDefExternNode", m_CDefExternNode);
    ("CPtrDeclaratorNode", m_CPtrDeclaratorNode);
    ("CReferenceDeclaratorNode", m_CReferenceDeclaratorNode);
    ("CArrayDeclaratorNode", m_CArrayDeclaratorNode);
    ("CFuncDeclaratorNode", m_CFuncDeclaratorNode);
    ("CNameDeclaratorNode", m_CNameDeclaratorNode);
    ("CSimpleBaseTypeNode", m_CSimpleBaseTypeNode);
    ("CComplexBaseTypeNode", m_CComplexBaseTypeNode);
    ("CNestedBaseTypeNode", m_CNestedBaseTypeNode);
    ("TemplatedTypeNode", m_TemplatedTypeNode);
    ("CVarDefNode", m_CVarDefNode);
    ("CStructOrUnionDefNode", m_CStructOrUnionDefNode);
    ("CppClassNode", m_CppClassNode); ("CEnumDefNode", m_CEnumDefNode);
    ("CEnumDefItemNode", m_CEnumDefItemNode);
    ("CClassDefNode", m_CClassDefNode); ("PyClassDefNode", m_PyClassDefNode);
    ("CTypeDefNode", m_CTypeDefNode); ("FuncDefNode", m_FuncDefNode);
    ("CArgDeclNode", m_CArgDeclNode); ("CImportStatNode", m_CImportStatNode);
    ("FromCImportStatNode", m_FromCImportStatNode);
    ("NameNode", m_NameNode); ("IntNode", m_IntNode);
    ("NoneNode", m_NoneNode); ("NotNode", m_NotNode);
    ("DecoratorNode", m_DecoratorNode); ("BinopNode", m_BinopNode);
    ("AttributeNode", m_AttributeNode); ("BoolNode", m_BoolNode);
    ("StringNode", m_StringNode); ("PassStatNode", m_PassStatNode);
    ("ListNode", m_ListNode); ("TupleNode", m_TupleNode);
    ("UnicodeNode", m_UnicodeNode); ("AssertStatNode", m_AssertStatNode) ].

Definition CodeWriter_methods : list (string * method) :=
  [ ("SingleAssignmentNode", m_SingleAssignmentNode);
    ("CascadedAssignmentNode", m_CascadedAssignmentNode);
    ("PrintStatNode", m_PrintStatNode); ("ForInStatNode", m_ForInStatNode);
    ("IfStatNode", m_IfStatNode); ("SequenceNode", m_SequenceNode);
    ("SimpleCallNode", m_SimpleCallNode);
    ("GeneralCallNode", m_GeneralCallNode);
    ("ExprStatNode", m_ExprStatNode);
    ("InPlaceAssignmentNode", m_InPlaceAssignmentNode);
    ("WithStatNode", m_WithStatNode);
    ("TryFinallyStatNode", m_TryFinallyStatNode);
    ("TryExceptStatNode", m_TryExceptStatNode);
    ("ExceptClauseNode", m_ExceptClauseNode);
    ("ReturnStatNode", m_ReturnStatNode);
    ("ReraiseStatNode", m_ReraiseStatNode); ("ImportNode", m_ImportNode);
    ("TempsBlockNode", m_TempsBlockNode); ("TempRefNode", m_TempRefNode);
    ("BytesNode", m_BytesNode); ("ContinueStatNode", m_ContinueStatNode);
    ("WhileStatNode", m_WhileStatNode); ("BreakStatNode", m_BreakStatNode);
    ("CoerceToBooleanNode", m_CoerceToBooleanNode);
    ("FloatNode", m_FloatNode); ("CoerceToTempNode", m_CoerceToTempNode);
    ("FromImportStatNode", m_FromImportStatNode);
    ("PrimaryCmpNode", m_PrimaryCmpNode);
    ("BoolBinopNode", m_BoolBinopNode); ("IndexNode", m_IndexNode);
    ("NullNode", m_NullNode); ("RaiseStatNode", m_RaiseStatNode);
    ("CFuncDefNode", m_CodeWriter_CFuncDefNode) ].

Definition PxdWriter_methods : list (string * method) :=
  [ ("CFuncDefNode", m_PxdWriter_CFuncDefNode);
    ("StatNode", m_PxdWriter_StatNode) ].

Fixpoint lookup_method (name : string) (methods : list (string * method))
  : option method :=
  match methods with
  | [] => None
  | (name', m) :: rest =>
      if String.eqb name name' then Some m else lookup_method name rest
  end.

(** [getattr(self, "visit_" + name, None)]: the class's own method of
    that name, or else the one inherited from [DeclarationWriter]. *)
Definition getattr_visit (cls : writer_class) (name : string)
  : option method :=
  match cls with
  | DeclarationWriter => lookup_method name DeclarationWriter_methods
  | CodeWriter =>
      match lookup_method name CodeWriter_methods with
      | Some m => Some m
      | None => lookup_method name DeclarationWriter_methods
      end
  | PxdWriter =>
      match lookup_method name PxdWriter_methods with
      | Some m => Some m
      | None => lookup_method name DeclarationWriter_methods
      end
  end.

(** Modelled from the spec: the dispatch of [TreeVisitor.visit] belongs
    to Cython.Compiler.Visitor.  The rule of a node is the method named
    after its concrete class or, if there is none, after the first of
    its ancestors that has one. *)
Fixpoint find_handler (cls : writer_class) (classes : list string)
  : option method :=
  match classes with
  | [] => None
  | c :: rest =>
      match getattr_visit cls c with
      | Some m => Some m
      | None => find_handler cls rest
      end
  end.

(** The call [handler_method(node)]: the method reads its attributes off
    the node, which has them when it is of the kind the method is named
    after, or of a kind that shares its attributes (the three sequences,
    the two coercions); a node that lacks them raises AttributeError.  A
    method that reads no attribute takes any node. *)
Definition call_method (visit : node -> M) (repr : string -> string)
    (m : method) (node : node) : M :=
  match m, fields_of node with
  | m_Node, _ => visit_Node node
  | m_ModuleNode, ModuleNode body => visit_ModuleNode visit body
  | m_StatListNode, StatListNode stats => visit_StatListNode visit stats
  | m_CDefExternNode, CDefExternNode include_file body =>
      visit_CDefExternNode visit include_file body
  | m_CPtrDeclaratorNode, CPtrDeclaratorNode base =>
      visit_CPtrDeclaratorNode visit base
  | m_CReferenceDeclaratorNode, CReferenceDeclaratorNode base =>
      visit_CReferenceDeclaratorNode visit base
  | m_CArrayDeclaratorNode, CArrayDeclaratorNode base dimension =>
      visit_CArrayDeclaratorNode visit base dimension
  | m_CFuncDeclaratorNode, CFuncDeclaratorNode base args =>
      visit_CFuncDeclaratorNode visit base args
  | m_CNameDeclaratorNode, CNameDeclaratorNode name _ =>
      visit_CNameDeclaratorNode name
  | m_CSimpleBaseTypeNode,
    CSimpleBaseTypeNode name is_basic_c_type signed longness _ =>
      visit_CSimpleBaseTypeNode name is_basic_c_type signed longness
  | m_CComplexBaseTypeNode, CComplexBaseTypeNode base_type declarator =>
      visit_CComplexBaseTypeNode visit base_type declarator
  | m_CNestedBaseTypeNode, CNestedBaseTypeNode base_type name =>
      visit_CNestedBaseTypeNode visit base_type name
  | m_TemplatedTypeNode, TemplatedTypeNode base_type_node args =>
      visit_TemplatedTypeNode visit base_type_node args
  | m_CVarDefNode, CVarDefNode base_type declarators =>
      visit_CVarDefNode visit base_type declarators
  | m_CStructOrUnionDefNode,
    CStructOrUnionDefNode name cname typedef_flag visibility packed kind
      attributes =>
      visit_CStructOrUnionDefNode visit name cname typedef_flag visibility
        packed kind attributes
  | m_CppClassNode, CppClassNode name cname templates base_classes attributes =>
      visit_CppClassNode visit name cname templates base_classes attributes
  | m_CEnumDefNode, CEnumDefNode name cname items =>
      visit_CEnumDefNode visit name cname items
  | m_CEnumDefItemNode, CEnumDefItemNode name cname value =>
      visit_CEnumDefItemNode visit name cname value
  | m_CClassDefNode,
    CClassDefNode module_name decorators class_name base_class_name
      base_class_module body =>
      visit_CClassDefNode visit module_name decorators class_name
        base_class_name base_class_module body
  | m_PyClassDefNode, PyClassDefNode name classobj_bases body =>
      visit_PyClassDefNode visit name classobj_bases body
  | m_CTypeDefNode, CTypeDefNode base_type declarator =>
      visit_CTypeDefNode visit base_type declarator
  | m_FuncDefNode, FuncDefNode entry_name name args star starstar body =>
      visit_FuncDefNode visit entry_name name args star starstar body
  | m_CArgDeclNode, CArgDeclNode base_type declarator default =>
      visit_CArgDeclNode visit base_type declarator default
  | m_CImportStatNode, CImportStatNode module_name as_name =>
      visit_CImportStatNode module_name as_name
  | m_FromCImportStatNode, FromCImportStatNode module_name imported_names =>
      visit_FromCImportStatNode module_name imported_names
  | m_NameNode, NameNode name => visit_NameNode name
  | m_IntNode, IntNode value => visit_IntNode value
  | m_NoneNode, _ => visit_NoneNode
  | m_NotNode, NotNode operand => visit_NotNode visit operand
  | m_DecoratorNode, DecoratorNode decorator =>
      visit_DecoratorNode visit decorator
  | m_BinopNode, BinopNode operand1 operator operand2 =>
      visit_BinopNode visit operand1 operator operand2
  | m_AttributeNode, AttributeNode obj attribute =>
      visit_AttributeNode visit obj attribute
  | m_BoolNode, BoolNode value => visit_BoolNode value
  | m_StringNode, StringNode value => visit_StringNode repr value
  | m_PassStatNode, _ => visit_PassStatNode
  | m_ListNode, (ListNode args | TupleNode args | SequenceNode args) =>
      visit_ListNode visit args
  | m_TupleNode, (ListNode args | TupleNode args | SequenceNode args) =>
      visit_TupleNode visit args
  | m_UnicodeNode, UnicodeNode value => visit_UnicodeNode repr value
  | m_AssertStatNode, AssertStatNode cond value =>
      visit_AssertStatNode visit cond value
  | m_SingleAssignmentNode, SingleAssignmentNode lhs rhs =>
      visit_SingleAssignmentNode visit lhs rhs
  | m_CascadedAssignmentNode, CascadedAssignmentNode lhs_list rhs =>
      visit_CascadedAssignmentNode visit lhs_list rhs
  | m_PrintStatNode, PrintStatNode arg_tuple_args append_newline =>
      visit_PrintStatNode visit arg_tuple_args append_newline
  | m_ForInStatNode, ForInStatNode target iterator_sequence body else_clause =>
      visit_ForInStatNode visit target iterator_sequence body else_clause
  | m_IfStatNode, IfStatNode if_clauses else_clause =>
      visit_IfStatNode visit if_clauses else_clause
  | m_SequenceNode, (ListNode args | TupleNode args | SequenceNode args) =>
      visit_SequenceNode visit args
  | m_SimpleCallNode, SimpleCallNode function args arg_tuple_args =>
      visit_SimpleCallNode visit function args arg_tuple_args
  | m_GeneralCallNode,
    GeneralCallNode function positional_args keyword_args starstar_arg =>
      visit_GeneralCallNode visit function positional_args keyword_args
        starstar_arg
  | m_ExprStatNode, ExprStatNode expr => visit_ExprStatNode visit expr
  | m_InPlaceAssignmentNode, InPlaceAssignmentNode lhs operator rhs =>
      visit_InPlaceAssignmentNode visit lhs operator rhs
  | m_WithStatNode, WithStatNode manager target body =>
      visit_WithStatNode visit manager target body
  | m_TryFinallyStatNode, TryFinallyStatNode body finally_clause =>
      visit_TryFinallyStatNode visit body finally_clause
  | m_TryExceptStatNode, TryExceptStatNode body except_clauses else_clause =>
      visit_TryExceptStatNode visit body except_clauses else_clause
  | m_ExceptClauseNode, ExceptClauseNode pattern target body =>
      visit_ExceptClauseNode visit pattern target body
  | m_ReturnStatNode, ReturnStatNode value => visit_ReturnStatNode visit value
  | m_ReraiseStatNode, _ => visit_ReraiseStatNode
  | m_ImportNode, ImportNode module_name_value =>
      visit_ImportNode module_name_value
  | m_TempsBlockNode, TempsBlockNode temps body =>
      visit_TempsBlockNode visit temps body
  | m_TempRefNode, TempRefNode h => visit_TempRefNode h
  | m_BytesNode, BytesNode value => visit_BytesNode repr value
  | m_ContinueStatNode, _ => visit_ContinueStatNode
  | m_WhileStatNode, WhileStatNode condition body else_clause =>
      visit_WhileStatNode visit condition body else_clause
  | m_BreakStatNode, _ => visit_BreakStatNode
  | m_CoerceToBooleanNode, (CoerceToBooleanNode arg | CoerceToTempNode arg) =>
      visit_CoerceToBooleanNode visit arg
  | m_FloatNode, FloatNode value => visit_FloatNode value
  | m_CoerceToTempNode, (CoerceToBooleanNode arg | CoerceToTempNode arg) =>
      visit_CoerceToTempNode visit arg
  | m_FromImportStatNode, FromImportStatNode module_name names =>
      visit_FromImportStatNode module_name names
  | m_PrimaryCmpNode, PrimaryCmpNode operand1 operator operand2 cascade =>
      visit_PrimaryCmpNode visit operand1 operator operand2 cascade
  | m_BoolBinopNode, BoolBinopNode operand1 operator operand2 =>
      visit_BoolBinopNode visit operand1 operator operand2
  | m_IndexNode, IndexNode base index => visit_IndexNode visit base index
  | m_NullNode, _ => visit_NullNode
  | m_RaiseStatNode, RaiseStatNode exc_type exc_value exc_tb =>
      visit_RaiseStatNode visit exc_type exc_value exc_tb
  | m_CodeWriter_CFuncDefNode, CFuncDefNode _ _ _ _ declarator body =>
      CodeWriter_visit_CFuncDefNode visit declarator body
  | m_PxdWriter_CFuncDefNode,
    CFuncDefNode modifiers overridable visibility api declarator _ =>
      PxdWriter_visit_CFuncDefNode visit modifiers overridable visibility api
        declarator
  | m_PxdWriter_StatNode, _ => PxdWriter_visit_StatNode
  | _, _ => raise AttributeError
  end.

(** [self.visit(node)] in a writer of class [cls]. *)
Fixpoint visit (repr : string -> string) (cls : writer_class) (n : node)
    {struct n} : M :=
  match find_handler cls (mro n) with
  | Some m => call_method (visit repr cls) repr m n
  | None => raise RuntimeError
  end.

(** [write]: visit the tree, give back the buffer. *)
Definition write (repr : string -> string) (cls : writer_class)
    (tree : node) (self : writer) : exn + LinesResult.t :=
  match visit repr cls tree self with
  | Returns self' => inr (result self')
  | Raises e _ => inl e
  end.

(** ** The shape of a tree *)

Definition opt_nodes (o : option node) : list node :=
  match o with
  | Some n => [n]
  | None => []
  end.

Definition opt_list_nodes (o : option (list node)) : list node :=
  match o with
  | Some l => l
  | None => []
  end.

(** The nodes a node owns, in field order. *)
Definition subnodes (n : node) : list node :=
  match fields_of n with
  | ModuleNode body => [body]
  | StatListNode stats => stats
  | CDefExternNode _ body => [body]
  | CPtrDeclaratorNode base => [base]
  | CReferenceDeclaratorNode base => [base]
  | CArrayDeclaratorNode base dimension => base :: opt_nodes dimension
  | CFuncDeclaratorNode base args => base :: args
  | CNameDeclaratorNode _ default => opt_nodes default
  | CSimpleBaseTypeNode _ _ _ _ _ => []
  | CComplexBaseTypeNode base_type declarator => [base_type; declarator]
  | CNestedBaseTypeNode base_type _ => [base_type]
  | TemplatedTypeNode base_type_node args => base_type_node :: args
  | CVarDefNode base_type declarators => base_type :: declarators
  | CStructOrUnionDefNode _ _ _ _ _ _ attributes => opt_list_nodes attributes
  | CppClassNode _ _ _ _ attributes => opt_list_nodes attributes
  | CEnumDefNode _ _ items => opt_list_nodes items
  | CEnumDefItemNode _ _ value => opt_nodes value
  | CClassDefNode _ decorators _ _ _ body => body :: decorators
  | PyClassDefNode _ classobj_bases body => body :: opt_nodes classobj_bases
  | CTypeDefNode base_type declarator => [base_type; declarator]
  | FuncDefNode _ _ args _ _ body => body :: args
  | CArgDeclNode base_type declarator default =>
      base_type :: declarator :: opt_nodes default
  | CImportStatNode _ _ => []
  | FromCImportStatNode _ _ => []
  | NameNode _ | IntNode _ | NoneNode | BoolNode _ | StringNode _
  | PassStatNode | UnicodeNode _ => []
  | NotNode operand => [operand]
  | DecoratorNode decorator => [decorator]
  | BinopNode operand1 _ operand2 => [operand1; operand2]
  | AttributeNode obj _ => [obj]
  | ListNode args | TupleNode args | SequenceNode args => args
  | AssertStatNode cond value => cond :: opt_nodes value
  | SingleAssignmentNode lhs rhs => [lhs; rhs]
  | CascadedAssignmentNode lhs_list rhs => rhs :: lhs_list
  | PrintStatNode arg_tuple_args _ => arg_tuple_args
  | ForInStatNode target iterator_sequence body else_clause =>
      target :: iterator_sequence :: body :: opt_nodes else_clause
  | IfStatNode if_clauses else_clause =>
      opt_nodes else_clause ++ map fst if_clauses ++ map snd if_clauses
  | SimpleCallNode function args arg_tuple_args =>
      function :: opt_list_nodes args ++ opt_list_nodes arg_tuple_args
  | GeneralCallNode function positional_args keyword_args starstar_arg =>
      function :: opt_nodes keyword_args ++ opt_nodes starstar_arg ++
      match positional_args with inl posarg => [posarg] | inr l => l end
  | AsTupleNode arg => [arg]
  | ExprStatNode expr => [expr]
  | InPlaceAssignmentNode lhs _ rhs => [lhs; rhs]
  | WithStatNode manager target body => manager :: body :: opt_nodes target
  | TryFinallyStatNode body finally_clause => [body; finally_clause]
  | TryExceptStatNode body except_clauses else_clause =>
      body :: opt_nodes else_clause ++ except_clauses
  | ExceptClauseNode pattern target body =>
      body :: opt_nodes pattern ++ opt_nodes target
  | ReturnStatNode value => opt_nodes value
  | ReraiseStatNode | ImportNode _ | TempRefNode _ | BytesNode _
  | ContinueStatNode | BreakStatNode | FloatNode _ | NullNode
  | FromImportStatNode _ _ | OtherNode => []
  | TempsBlockNode _ body => [body]
  | WhileStatNode condition body else_clause =>
      condition :: body :: opt_nodes else_clause
  | CoerceToBooleanNode arg | CoerceToTempNode arg => [arg]
  | PrimaryCmpNode operand1 _ operand2 cascade =>
      operand1 :: operand2 :: map snd cascade
  | BoolBinopNode operand1 _ operand2 => [operand1; operand2]
  | IndexNode base index => [base; index]
  | RaiseStatNode exc_type exc_value exc_tb =>
      opt_nodes exc_type ++ opt_nodes exc_value ++ opt_nodes exc_tb
  | CFuncDefNode _ _ _ _ declarator body => [declarator; body]
  end.

(** [descendant c n]: [c] lies strictly inside [n]. *)
Inductive descendant : node -> node -> Prop :=
| desc_child c n : In c (subnodes n) -> descendant c n
| desc_step c m n : descendant c m -> In m (subnodes n) -> descendant c n.

(** ** What a method does to the counters *)

Definition final (o : outcome) : writer :=
  match o with
  | Returns w => w
  | Raises _ w => w
  end.

(** [effect m d]: [m] never lowers the block counter, and when it
    returns the indent level has moved by [d]. *)
Definition effect (m : M) (d : Z) : Prop :=
  forall w,
    tempblockindex w <= tempblockindex (final (m w)) /\
    (forall w', m w = Returns w' -> numindents w' = numindents w + d).

(** [respects R m]: the state [m] leaves, on return or on raise, is
    related by [R] to the state it started from. *)
Definition respects (R : writer -> writer -> Prop) (m : M) : Prop :=
  forall w, R w (final (m w)).

(** [same m1 m2]: the two method bodies do the same from every state. *)
Definition same (m1 m2 : M) : Prop := forall w, m1 w = m2 w.

(** Whether the body of a method itself ends a line or moves the indent
    level, that is, calls [endline], [putline], [line], [indent] or
    [dedent]; the other methods only put text and visit. *)
Definition ends_line (m : method) : bool :=
  match m with
  | m_Node | m_ModuleNode | m_CPtrDeclaratorNode | m_CReferenceDeclaratorNode
  | m_CArrayDeclaratorNode | m_CNameDeclaratorNode | m_CSimpleBaseTypeNode
  | m_CComplexBaseTypeNode | m_CNestedBaseTypeNode | m_TemplatedTypeNode
  | m_CArgDeclNode | m_NameNode | m_IntNode | m_NoneNode | m_NotNode
  | m_BinopNode | m_AttributeNode | m_BoolNode | m_StringNode | m_ListNode
  | m_TupleNode | m_UnicodeNode | m_SequenceNode | m_SimpleCallNode
  | m_GeneralCallNode | m_TempsBlockNode | m_TempRefNode | m_BytesNode
  | m_CoerceToBooleanNode | m_FloatNode | m_CoerceToTempNode
  | m_PrimaryCmpNode | m_BoolBinopNode | m_IndexNode | m_NullNode
  | m_PxdWriter_CFuncDefNode | m_PxdWriter_StatNode => false
  | _ => true
  end.

(** ** Vocabulary of the statements *)

(** The children are visited one after the other, each from the state the
    one before it left, and nothing is written between two of them. *)
Definition visit_in_order (visit : node -> M) (children : list node)
    (w : writer) : outcome :=
  fold_left
    (fun o child =>
       match o with
       | Returns w' => visit child w'
       | Raises e w' => Raises e w'
       end)
    children (Returns w).

(** The writer [w] with its buffer holding the committed lines [ls] and
    the line in progress [cur]. *)
Definition with_buffer (ls : list string) (cur : string) (w : writer)
  : writer :=
  set_result (LinesResult.mk ls cur) w.

(** The indentation of a line started in [w]. *)
Definition indentation (w : writer) : string :=
  str_mul indent_string (numindents w).

(** The texts of a list, one after the other. *)
Definition cat (l : list string) : string :=
  fold_right String.append EmptyString l.

(** Whether the character [c] occurs in a text. *)
Fixpoint occurs (c : ascii) (x : string) : bool :=
  match x with
  | EmptyString => false
  | String a x' => Ascii.eqb a c || occurs c x'
  end.

(** All the text of the buffer: the committed lines and the line in
    progress, end to end. *)
Definition written (w : writer) : string :=
  cat (LinesResult.lines (result w)) +:+ LinesResult.s (result w).

(** The starred parameter of a signature, if there is one. *)
Definition starred (stars : string) (o : option string) : list string :=
  match o with
  | Some x => [stars +:+ x]
  | None => []
  end.

(** The three sign prefixes of a basic C type, as indexed by
    [node.signed]. *)
Definition sign_prefixes : list string :=
  ["unsigned "; EmptyString; "signed "].

(** The message of [visit_Node] for a node. *)
Definition not_handled (n : node) : exn :=
  AssertionError "Node not handled by serializer: %r" (Some n).

(** The text of the header of a container after its indentation. *)
Definition container_header (name cname : option string) (decl : string)
    (extras : option string) : string :=
  decl +:+
  (if truthy name then
     " " +:+ default EmptyString name +:+
     match cname with
     | Some c => " " +:+ dquote +:+ c +:+ dquote
     | None => EmptyString
     end
   else EmptyString) +:+
  (if truthy extras then default EmptyString extras else EmptyString) +:+
  ":".


(** ** Trees of the examples

    The classes are those of the compiler's hierarchy. *)

(** [repr] in the examples, on text without quotes or escapes. *)
Definition ex_repr (x : string) : string := "'" +:+ x +:+ "'".

Definition ex_name (x : string) : node :=
  Node ["NameNode"; "AtomicExprNode"; "ExprNode"] (NameNode x).

Definition ex_int (x : string) : node :=
  Node ["IntNode"; "ConstNode"; "AtomicExprNode"; "ExprNode"] (IntNode x).

Definition ex_stats (stats : list node) : node :=
  Node ["StatListNode"; "StatNode"] (StatListNode stats).

Definition ex_pass : node := Node ["PassStatNode"; "StatNode"] PassStatNode.

(** [for x in xs: pass]. *)
Definition ex_for : node :=
  Node ["ForInStatNode"; "LoopNode"; "StatNode"]
    (ForInStatNode (ex_name "x") (ex_name "xs") (ex_stats []) None).

(** A node of a kind no writer has a rule for. *)
Definition ex_lambda : node :=
  Node ["LambdaNode"; "InnerFunctionNode"; "ExprNode"] OtherNode.

(** The declarator [a = 1] of [cdef int a = 1]. *)
Definition ex_declarator (name value : string) : node :=
  Node ["CNameDeclaratorNode"; "CDeclaratorNode"]
    (CNameDeclaratorNode name (Some (ex_int value))).

(** [cdef int a = 1]. *)
Definition ex_cvardef : node :=
  Node ["CVarDefNode"; "StatNode"]
    (CVarDefNode
       (Node ["CSimpleBaseTypeNode"; "CBaseTypeNode"]
          (CSimpleBaseTypeNode (Some "int") true 1 0 false))
       [ex_declarator "a" "1"]).

(** Two blocks of temporaries, the second inside the first, both
    starting at slot 0: the statement [t7; t9] under handles 7 and 9. *)
Definition ex_temps : node :=
  Node ["TempsBlockNode"; "ExprNode"]
    (TempsBlockNode [7%nat]
       (Node ["TempsBlockNode"; "ExprNode"]
          (TempsBlockNode [9%nat]
             (Node ["ExprStatNode"; "StatNode"]
                (ExprStatNode
                   (Node ["TupleNode"; "SequenceNode"; "ExprNode"]
                      (TupleNode
                         [Node ["TempRefNode"; "AtomicExprNode"; "ExprNode"]
                            (TempRefNode 7%nat);
                          Node ["TempRefNode"; "AtomicExprNode"; "ExprNode"]
                            (TempRefNode 9%nat)]))))))).

(** [a.b + f(1, 2)]. *)
Definition ex_sum : node :=
  Node ["AddNode"; "NumBinopNode"; "BinopNode"; "ExprNode"]
    (BinopNode
       (Node ["AttributeNode"; "ExprNode"] (AttributeNode (ex_name "a") "b"))
       "+"
       (Node ["SimpleCallNode"; "CallNode"; "ExprNode"]
          (SimpleCallNode (ex_name "f") (Some [ex_int "1"; ex_int "2"])
             None))).

(** The parameter [x] of [def f(x)]: an argument without a type. *)
Definition ex_arg (x : string) : node :=
  Node ["CArgDeclNode"]
    (CArgDeclNode
       (Node ["CSimpleBaseTypeNode"; "CBaseTypeNode"]
          (CSimpleBaseTypeNode None false 1 0 false))
       (Node ["CNameDeclaratorNode"; "CDeclaratorNode"]
          (CNameDeclaratorNode x None))
       None).

(** The text of a name, of an integer, of an argument without a type. *)
Definition ex_text (n : node) : string :=
  match n with
  | Node _ (NameNode x) | Node _ (IntNode x)
  | Node _ (CArgDeclNode _ (Node _ (CNameDeclaratorNode x _)) _) => x
  | _ => EmptyString
  end.

(** [ctypedef int t]. *)
Definition ex_ctypedef : node :=
  Node ["CTypeDefNode"; "StatNode"]
    (CTypeDefNode
       (Node ["CSimpleBaseTypeNode"; "CBaseTypeNode"]
          (CSimpleBaseTypeNode (Some "int") true 1 0 false))
       (Node ["CNameDeclaratorNode"; "CDeclaratorNode"]
          (CNameDeclaratorNode "t" None))).

(** [a < b > c]. *)
Definition ex_cmp : node :=
  Node ["PrimaryCmpNode"; "ExprNode"; "CmpNode"]
    (PrimaryCmpNode (ex_name "a") "<" (ex_name "b") [(">", ex_name "c")]).

(** [f(a, k=v)]. *)
Definition ex_call : node :=
  Node ["GeneralCallNode"; "CallNode"; "ExprNode"]
    (GeneralCallNode (ex_name "f") (inr [ex_name "a"])
       (Some (Node ["DictNode"; "ExprNode"] OtherNode)) None).

(** [cdef inline int f()], as the declarations writer gets it. *)
Definition ex_inline : node :=
  Node ["CFuncDefNode"; "FuncDefNode"; "StatNode"; "BlockNode"]
    (CFuncDefNode ["inline"] false "private" false
       (Node ["CFuncDeclaratorNode"; "CDeclaratorNode"]
          (CFuncDeclaratorNode
             (Node ["CNameDeclaratorNode"; "CDeclaratorNode"]
                (CNameDeclaratorNode "f" None)) []))
       (ex_stats [])).

(** * Properties *)

(** ** Induction on trees *)

Lemma Forall_append {A : Type} (P : A -> Prop) (l1 l2 : list A) :
  List.Forall P l1 -> List.Forall P l2 -> List.Forall P (l1 ++ l2).
Proof.
  intros H1 H2. induction H1; simpl; [assumption | constructor; assumption].
Qed.

Local Ltac forall_subnodes IH :=
  repeat first
    [ apply List.Forall_nil
    | apply List.Forall_cons; [apply IH |]
    | apply Forall_append
    | match goal with
      | |- List.Forall _ (opt_nodes ?o) => destruct o; simpl
      | |- List.Forall _ (opt_list_nodes ?o) => destruct o; simpl
      | |- List.Forall _ (match ?s with inl _ => _ | inr _ => _ end) =>
          destruct s
      | |- List.Forall _ (map fst ?l) =>
          induction l as [| [? ?] ? ?]; simpl;
          [apply List.Forall_nil | apply List.Forall_cons; [apply IH | assumption]]
      | |- List.Forall _ (map snd ?l) =>
          induction l as [| [? ?] ? ?]; simpl;
          [apply List.Forall_nil | apply List.Forall_cons; [apply IH | assumption]]
      | |- List.Forall _ ?l =>
          is_var l; induction l;
          [apply List.Forall_nil | apply List.Forall_cons; [apply IH | assumption]]
      end ].

Lemma node_subnodes_ind (P : node -> Prop) :
  (forall n, List.Forall P (subnodes n) -> P n) -> forall n, P n.
Proof.
  intros H. fix IH 1. intros [type fields]. apply H.
  destruct fields; unfold subnodes; simpl; forall_subnodes IH.
Qed.

Lemma node_descendant_ind (P : node -> Prop) :
  (forall n, (forall c, descendant c n -> P c) -> P n) -> forall n, P n.
Proof.
  intros H n. apply H. induction n as [n IHn] using node_subnodes_ind.
  intros c Hc. rewrite List.Forall_forall in IHn.
  induction Hc as [c n Hin | c m n Hcm IHcm Hin].
  - apply H. apply IHn. assumption.
  - apply (IHn m Hin). assumption.
Qed.

(** ** The equation of [visit] *)

Lemma visit_eq (repr : string -> string) (cls : writer_class) (n : node) :
  visit repr cls n =
  match find_handler cls (mro n) with
  | Some m => call_method (visit repr cls) repr m n
  | None => raise RuntimeError
  end.
Proof. destruct n; reflexivity. Qed.

(** ** Counters: the effect of the primitives *)

Lemma effect_ret : effect ret 0.
Proof. intros w. simpl. split; [lia | intros w' [= <-]; lia]. Qed.

Lemma effect_raise (e : exn) (d : Z) : effect (raise e) d.
Proof. intros w. simpl. split; [lia | discriminate]. Qed.

Lemma effect_seq (a b : M) (d1 d2 d : Z) :
  effect a d1 -> effect b d2 -> d = d1 + d2 -> effect (a ;; b) d.
Proof.
  intros Ha Hb -> w. unfold seq.
  destruct (Ha w) as [Ha1 Ha2]. destruct (a w) as [w1 | e w1]; simpl in *.
  - destruct (Hb w1) as [Hb1 Hb2]. specialize (Ha2 w1 eq_refl). split.
    + lia.
    + intros w' Hw'. rewrite (Hb2 w' Hw'). lia.
  - split; [assumption | discriminate].
Qed.

Lemma effect_seq0 (a b : M) : effect a 0 -> effect b 0 -> effect (a ;; b) 0.
Proof. intros Ha Hb. exact (effect_seq a b 0 0 0 Ha Hb eq_refl). Qed.

Lemma effect_indent : effect indent 1.
Proof. intros w. simpl. split; [lia | intros w' [= <-]; reflexivity]. Qed.

Lemma effect_dedent : effect dedent (-1).
Proof. intros w. simpl. split; [lia | intros w' [= <-]; simpl; lia]. Qed.

Lemma effect_set_result (f : writer -> LinesResult.t) :
  effect (fun w => Returns (set_result (f w) w)) 0.
Proof. intros w. simpl. split; [lia | intros w' [= <-]; simpl; lia]. Qed.

Lemma effect_put (x : string) : effect (put x) 0.
Proof. apply (effect_set_result (fun w => LinesResult.put (result w) x)). Qed.

Lemma effect_startline (x : string) : effect (startline x) 0.
Proof. exact (effect_set_result _). Qed.

Lemma effect_putline (x : string) : effect (putline x) 0.
Proof. exact (effect_set_result _). Qed.

Lemma effect_endline (x : string) : effect (endline x) 0.
Proof. exact (effect_set_result _). Qed.

Lemma effect_line (x : string) : effect (line x) 0.
Proof.
  unfold line. apply effect_seq0;
    [apply effect_startline | apply effect_endline].
Qed.

Lemma effect_put_obj (x : option string) : effect (put_obj x) 0.
Proof. destruct x; [apply effect_put | apply effect_raise]. Qed.

Lemma effect_when (c : bool) (body : M) :
  effect body 0 -> effect (when c body) 0.
Proof. destruct c; [trivial | intros _; apply effect_ret]. Qed.

Lemma effect_for_each {A : Type} (f : A -> M) (l : list A) :
  (forall x, In x l -> effect (f x) 0) -> effect (for_each f l) 0.
Proof.
  induction l as [| x l IH]; intros H; simpl.
  - apply effect_ret.
  - apply effect_seq0; [apply H; left; reflexivity |].
    apply IH. intros y Hy. apply H. right. assumption.
Qed.

Lemma effect_for_each_enum {A : Type} (f : Z -> A -> M) (l : list A) :
  (forall i x, In x l -> effect (f i x) 0) -> effect (for_each_enum f l) 0.
Proof.
  unfold for_each_enum. generalize 0 at 2.
  induction l as [| x l IH]; intros i H; simpl.
  - apply effect_ret.
  - apply effect_seq0; [apply H; left; reflexivity |].
    apply IH. intros j y Hy. apply H. right. assumption.
Qed.

Lemma effect_set_tempname (h : handle) (name : writer -> string) :
  effect (fun w => Returns (set_tempname h (name w) w)) 0.
Proof. intros w. simpl. split; [lia | intros w' [= <-]; simpl; lia]. Qed.

Lemma effect_next_block :
  effect (fun w => Returns (set_tempblockindex (tempblockindex w + 1) w)) 0.
Proof. intros w. simpl. split; [lia | intros w' [= <-]; simpl; lia]. Qed.

Lemma effect_visit_TempRefNode (h : handle) : effect (visit_TempRefNode h) 0.
Proof.
  intros w. unfold visit_TempRefNode. destruct (tempnames w !! h).
  - apply effect_put.
  - simpl. split; [lia | discriminate].
Qed.

Lemma effect_visit_FromCImportStatNode module_name imported_names :
  effect (visit_FromCImportStatNode module_name imported_names) 0.
Proof.
  unfold visit_FromCImportStatNode.
  apply effect_seq0; [apply effect_startline |].
  apply effect_seq0; [apply effect_put |].
  apply effect_seq0; [apply effect_put |].
  apply effect_seq0; [| apply effect_endline].
  match goal with
  | |- effect (?loop true _) 0 =>
      enough (H : forall first, effect (loop first imported_names) 0)
        by apply H
  end.
  induction imported_names as [| [[name as_name] kind] l IH]; intros first.
  - apply effect_ret.
  - apply effect_seq0.
    { destruct kind; [apply effect_raise | apply effect_ret]. }
    apply effect_seq0.
    { destruct first; [apply effect_ret | apply effect_put]. }
    apply effect_seq0; [apply effect_put |].
    apply effect_seq0; [| apply IH].
    apply effect_when.
    apply effect_seq0; [apply effect_put | apply effect_put_obj].
Qed.

Section EffectOfMethods.

Variable v : node -> M.

Lemma effect_visit_enumerated (sep : string) (args : list node) :
  (forall x, In x args -> effect (v x) 0) ->
  effect (visit_enumerated v sep args) 0.
Proof.
  intros H. apply effect_for_each_enum. intros i x Hx.
  apply effect_seq0; [apply effect_when, effect_put | apply H, Hx].
Qed.

Lemma effect_output_default (output_rhs : bool) (item : node) :
  (forall c, In c (subnodes item) -> effect (v c) 0) ->
  effect (output_default v output_rhs item) 0.
Proof.
  intros H. unfold output_default. destruct output_rhs; [| apply effect_ret].
  destruct item as [type fields].
  destruct fields; try apply effect_raise;
    match goal with
    | |- context [match ?d with Some _ => _ | None => _ end] => destruct d
    end;
    try apply effect_ret;
    (apply effect_seq0; [apply effect_put |]);
    apply H; unfold subnodes; simpl; auto.
Qed.

Lemma effect_comma_separated_list (items : list node) (output_rhs : bool) :
  (forall x, In x items -> effect (v x) 0) ->
  (forall x c, In x items -> In c (subnodes x) -> effect (v c) 0) ->
  effect (comma_separated_list v items output_rhs) 0.
Proof.
  induction items as [| item rest IH]; intros H1 H2.
  - apply effect_ret.
  - destruct rest as [| item' rest'].
    + apply H1. left. reflexivity.
    + change (effect (v item ;; output_default v output_rhs item ;;
                      put ", " ;;
                      comma_separated_list v (item' :: rest') output_rhs) 0).
      apply effect_seq0; [apply H1; left; reflexivity |].
      apply effect_seq0.
      { apply effect_output_default. intros c Hc.
        apply (H2 item c); [left; reflexivity | assumption]. }
      apply effect_seq0; [apply effect_put |].
      apply IH.
      * intros x Hx. apply H1. right. assumption.
      * intros x c Hx Hc. apply (H2 x c); [right |]; assumption.
Qed.

End EffectOfMethods.

(** ** Counters: every method moves the indent level back *)

Local Ltac solve_in :=
  unfold subnodes;
  cbn [fields_of opt_nodes opt_list_nodes map fst snd In] in *;
  rewrite ?List.in_app_iff; cbn [In map fst snd];
  solve [intuition (auto using List.in_map)].

Local Ltac solve_v H :=
  apply H;
  first
    [ apply desc_child; solve_in
    | match type of H with
      | context [Node ?t ?f] =>
          apply (desc_step _ (Node t f));
          [apply desc_child; solve_in | solve_in]
      end ].

Local Ltac eff H :=
  cbv beta;
  lazymatch goal with
  | |- effect (seq _ _) _ =>
      eapply effect_seq; [eff H | eff H | first [reflexivity | lia]]
  | |- effect indent _ => apply effect_indent
  | |- effect dedent _ => apply effect_dedent
  | |- effect _ ?d => first [is_evar d; unify d 0 | idtac]; eff0 H
  end
with eff0 H :=
  lazymatch goal with
  | |- effect ret _ => apply effect_ret
  | |- effect (raise _) _ => apply effect_raise
  | |- effect (put _) _ => apply effect_put
  | |- effect (put_obj _) _ => apply effect_put_obj
  | |- effect (startline _) _ => apply effect_startline
  | |- effect (putline _) _ => apply effect_putline
  | |- effect (endline _) _ => apply effect_endline
  | |- effect (line _) _ => apply effect_line
  | |- effect (visit_TempRefNode _) _ => apply effect_visit_TempRefNode
  | |- effect (visit_FromCImportStatNode _ _) _ =>
      apply effect_visit_FromCImportStatNode
  | |- effect (fun w => Returns (set_tempname _ _ w)) _ =>
      exact (effect_set_tempname _ _)
  | |- effect (fun w => Returns (set_tempblockindex _ w)) _ =>
      exact effect_next_block
  | |- effect (when _ _) _ => apply effect_when; eff H
  | |- effect (for_each _ _) _ =>
      apply effect_for_each;
      let x := fresh "x" in
      let Hx := fresh "Hx" in
      intros x Hx;
      try pose proof (List.in_map fst _ _ Hx);
      try pose proof (List.in_map snd _ _ Hx);
      eff H
  | |- effect (for_each_enum _ _) _ =>
      apply effect_for_each_enum; intros; eff H
  | |- effect (visit_enumerated _ _ _) _ =>
      apply effect_visit_enumerated; intros; solve_v H
  | |- effect (comma_separated_list _ _ _) _ =>
      apply effect_comma_separated_list;
      [ intros; solve_v H
      | let x := fresh "x" in
        let c := fresh "c" in
        let Hx := fresh "Hx" in
        let Hc := fresh "Hc" in
        intros x c Hx Hc; apply H;
        apply (desc_step c x); [apply desc_child; exact Hc | solve_in] ]
  | |- effect (visitchild _ ?c) _ => unfold visitchild; eff H
  | |- effect (match ?x with _ => _ end) _ => destruct x; eff H
  | |- effect (_ _) _ => solve_v H
  end.

Lemma effect_call_method (v : node -> M) (repr : string -> string)
    (m : method) (n : node) :
  (forall c, descendant c n -> effect (v c) 0) ->
  effect (call_method v repr m n) 0.
Proof.
  intros H. destruct n as [type fields].
  destruct m; destruct fields;
    try apply effect_raise;
    unfold call_method; cbn [fields_of];
    unfold visit_Node, visit_ModuleNode, visit_StatListNode,
      visit_CDefExternNode, visit_CPtrDeclaratorNode,
      visit_CReferenceDeclaratorNode, visit_CArrayDeclaratorNode,
      visit_CFuncDeclaratorNode, visit_CNameDeclaratorNode,
      visit_CSimpleBaseTypeNode, visit_CComplexBaseTypeNode,
      visit_CNestedBaseTypeNode, visit_TemplatedTypeNode, visit_CVarDefNode,
      visit_CStructOrUnionDefNode, visit_CppClassNode, visit_CEnumDefNode,
      visit_container_node, visit_CEnumDefItemNode, visit_CClassDefNode,
      visit_PyClassDefNode, visit_CTypeDefNode, visit_FuncDefNode,
      visit_CArgDeclNode, visit_CImportStatNode, visit_NameNode,
      visit_IntNode, visit_NoneNode, visit_NotNode, visit_DecoratorNode,
      visit_BinopNode, visit_AttributeNode, visit_BoolNode, visit_StringNode,
      visit_PassStatNode, visit_ListNode, visit_TupleNode, visit_UnicodeNode,
      visit_AssertStatNode, visit_SingleAssignmentNode,
      visit_CascadedAssignmentNode, visit_PrintStatNode, visit_ForInStatNode,
      visit_IfStatNode, visit_SequenceNode, visit_SimpleCallNode,
      visit_GeneralCallNode, visit_ExprStatNode, visit_InPlaceAssignmentNode,
      visit_WithStatNode, visit_TryFinallyStatNode, visit_TryExceptStatNode,
      visit_ExceptClauseNode, visit_ReturnStatNode, visit_ReraiseStatNode,
      visit_ImportNode, visit_TempsBlockNode, visit_BytesNode,
      visit_ContinueStatNode, visit_WhileStatNode, visit_BreakStatNode,
      visit_CoerceToBooleanNode, visit_FloatNode, visit_CoerceToTempNode,
      visit_FromImportStatNode, visit_PrimaryCmpNode, visit_BoolBinopNode,
      visit_IndexNode, visit_NullNode, visit_RaiseStatNode,
      CodeWriter_visit_CFuncDefNode, PxdWriter_visit_CFuncDefNode,
      PxdWriter_visit_StatNode;
    cbv zeta.
  all: solve [eff H].
Qed.

Lemma effect_visit (repr : string -> string) (cls : writer_class) (n : node) :
  effect (visit repr cls n) 0.
Proof.
  induction n as [n IH] using node_descendant_ind. rewrite visit_eq.
  destruct (find_handler cls (mro n)) as [m |].
  - apply effect_call_method. exact IH.
  - apply effect_raise.
Qed.

(** ** Text *)

Lemma append_nil_r (x : string) : x +:+ EmptyString = x.
Proof.
  induction x as [| a x IH]; [reflexivity |].
  change (String a (x +:+ EmptyString) = String a x). rewrite IH. reflexivity.
Qed.

Lemma append_assoc (x y z : string) : (x +:+ y) +:+ z = x +:+ y +:+ z.
Proof.
  induction x as [| a x IH]; [reflexivity |].
  change (String a ((x +:+ y) +:+ z) = String a (x +:+ y +:+ z)).
  rewrite IH. reflexivity.
Qed.

Lemma put_eq (x : string) (w : writer) :
  put x w =
  Returns (with_buffer (LinesResult.lines (result w))
             (LinesResult.s (result w) +:+ x) w).
Proof. reflexivity. Qed.

Lemma line_eq (x : string) (w : writer) :
  line x w =
  Returns (with_buffer
             (LinesResult.lines (result w) ++
              [LinesResult.s (result w) +:+ indentation w +:+ x])
             EmptyString w).
Proof.
  unfold line, seq, startline, endline, with_buffer, set_result,
    LinesResult.putline, LinesResult.newline, LinesResult.put, indentation.
  simpl. rewrite append_nil_r. reflexivity.
Qed.

(** ** Dispatch *)

Lemma visit_dispatch (repr : string -> string) (cls : writer_class)
    (c : string) (type : list string) (fields : attrs) (m : method) :
  getattr_visit cls c = Some m ->
  visit repr cls (Node (c :: type) fields) =
  call_method (visit repr cls) repr m (Node (c :: type) fields).
Proof.
  intros H. rewrite visit_eq. cbn [mro type_of app find_handler].
  rewrite H. reflexivity.
Qed.

Lemma getattr_visit_Node (cls : writer_class) :
  getattr_visit cls "Node" = Some m_Node.
Proof. destruct cls; reflexivity. Qed.

Lemma find_handler_fallback (cls : writer_class) (classes : list string) :
  (forall c, In c classes -> getattr_visit cls c = None) ->
  find_handler cls (classes ++ ["Node"]) = Some m_Node.
Proof.
  induction classes as [| c classes IH]; intros H; simpl.
  - rewrite getattr_visit_Node. reflexivity.
  - rewrite (H c) by (left; reflexivity).
    apply IH. intros c' Hc'. apply H. right. assumption.
Qed.

(** The root class has a rule in every writer, so dispatch finds one. *)
Lemma find_handler_total (cls : writer_class) (n : node) :
  exists m, find_handler cls (mro n) = Some m.
Proof.
  unfold mro. induction (type_of n) as [| c classes IH]; simpl.
  - rewrite getattr_visit_Node. eauto.
  - destruct (getattr_visit cls c); eauto.
Qed.

Lemma for_each_in_order (visit : node -> M) (children : list node)
    (w : writer) :
  for_each visit children w = visit_in_order visit children w.
Proof.
  unfold visit_in_order. revert w.
  induction children as [| c children IH]; intros w; simpl.
  - reflexivity.
  - unfold seq. destruct (visit c w) as [w' | e w'].
    + apply IH.
    + clear IH. induction children; simpl; auto.
Qed.

Lemma for_each_app {A : Type} (f : A -> M) (l1 l2 : list A) (w : writer) :
  for_each f (l1 ++ l2) w = (for_each f l1 ;; for_each f l2) w.
Proof.
  revert w. induction l1 as [| x l1 IH]; intros w; simpl.
  - reflexivity.
  - unfold seq. destruct (f x w) as [w' | e w'].
    + rewrite IH. reflexivity.
    + reflexivity.
Qed.

(** ** C1: a kind without a rule *)

(** C1. In every writer, a node none of whose classes has a [visit_]
    method is dispatched to [visit_Node], which raises the assertion error
    carrying the node and leaves the writer as it was: no text is put
    and no line is committed.  The error ends the traversal: [write]
    yields it instead of a buffer, and a statement list holding the node
    raises it as soon as the statements before it are written. *)
Theorem C1_unhandled_kind_aborts (repr : string -> string)
    (cls : writer_class) (n : node) :
  (forall c, In c (type_of n) -> getattr_visit cls c = None) ->
  forall w,
    visit repr cls n w = Raises (not_handled n) w /\
    write repr cls n w = inl (not_handled n) /\
    (forall type before after w0,
       for_each (visit repr cls) before w0 = Returns w ->
       visit repr cls
         (Node ("StatListNode" :: type) (StatListNode (before ++ n :: after)))
         w0 = Raises (not_handled n) w).
Proof.
  intros H w.
  assert (Hn : visit repr cls n w = Raises (not_handled n) w).
  { rewrite visit_eq. unfold mro. rewrite (find_handler_fallback _ _ H).
    destruct n; reflexivity. }
  split; [exact Hn |]. split.
  - unfold write. rewrite Hn. reflexivity.
  - intros type before after w0 Hbefore.
    rewrite (visit_dispatch _ _ _ _ _ m_StatListNode)
      by (destruct cls; reflexivity).
    unfold call_method; cbn [fields_of]. unfold visit_StatListNode.
    destruct (before ++ n :: after)%list as [| x l] eqn:E.
    { destruct before; discriminate. }
    cbn [length Nat.eqb]. rewrite <- E, for_each_app.
    unfold seq. rewrite Hbefore. simpl. unfold seq. rewrite Hn. reflexivity.
Qed.

(** ** C2: statement lists *)

(** C2. A statement list with no statement commits one line, the text
    in progress followed by the indentation and [pass]; on a fresh line
    that is [pass] at the current indent.  A statement list with
    statements visits them in list order, each from the state the one
    before it left, with nothing written between them. *)
Theorem C2_statement_list (repr : string -> string) (cls : writer_class)
    (type : list string) (stats : list node) (w : writer) :
  visit repr cls (Node ("StatListNode" :: type) (StatListNode stats)) w =
  match stats with
  | [] =>
      Returns
        (with_buffer
           (LinesResult.lines (result w) ++
            [LinesResult.s (result w) +:+ indentation w +:+ "pass"])
           EmptyString w)
  | _ => visit_in_order (visit repr cls) stats w
  end.
Proof.
  rewrite (visit_dispatch _ _ _ _ _ m_StatListNode)
    by (destruct cls; reflexivity).
  unfold call_method; cbn [fields_of]. unfold visit_StatListNode.
  destruct stats as [| x l].
  - apply line_eq.
  - cbn [length Nat.eqb]. apply for_each_in_order.
Qed.

(** ** C3: comma-separated lists *)

Lemma seq_assoc (a b c : M) (w : writer) :
  ((a ;; b) ;; c) w = (a ;; b ;; c) w.
Proof. unfold seq. destruct (a w); reflexivity. Qed.

Lemma seq_ext_r (a b c : M) (w : writer) :
  (forall w', b w' = c w') -> (a ;; b) w = (a ;; c) w.
Proof. intros H. unfold seq. destruct (a w); [apply H | reflexivity]. Qed.

(** [comma_separated_list] in the shape of the source: the loop over
    [items[:-1]], then [items[-1]]. *)
Lemma comma_separated_list_snoc (v : node -> M) (init : list node)
    (last : node) (output_rhs : bool) (w : writer) :
  comma_separated_list v (init ++ [last]) output_rhs w =
  (for_each (fun item => v item ;; output_default v output_rhs item ;;
                         put ", ") init ;;
   v last) w.
Proof.
  revert w. induction init as [| item init IH]; intros w.
  - simpl. reflexivity.
  - change ((item :: init) ++ [last])%list with (item :: (init ++ [last]))%list.
    destruct (init ++ [last])%list as [| item' rest] eqn:E.
    { destruct init; discriminate. }
    change (comma_separated_list v (item :: item' :: rest) output_rhs w)
      with ((v item ;; output_default v output_rhs item ;; put ", " ;;
             comma_separated_list v (item' :: rest) output_rhs) w).
    cbn [for_each]. rewrite ?seq_assoc.
    apply seq_ext_r. intros w1. rewrite ?seq_assoc.
    apply seq_ext_r. intros w2. rewrite ?seq_assoc.
    apply seq_ext_r. intros w3. apply IH.
Qed.

(** The separator is put once after every item but the last: items that
    write their text and carry no default are joined by it. *)
Lemma comma_separated_list_join (v : node -> M) (text : node -> string)
    (items : list node) (output_rhs : bool) (w : writer) :
  (forall item w', In item items ->
     v item w' = put (text item) w' /\
     output_default v output_rhs item w' = Returns w') ->
  comma_separated_list v items output_rhs w =
  put (join ", " (map text items)) w.
Proof.
  revert w. induction items as [| item items IH]; intros w H.
  - simpl. rewrite put_eq, append_nil_r. destruct w as [[? ?] ? ? ?].
    reflexivity.
  - destruct items as [| item' items'].
    + simpl. apply H. left. reflexivity.
    + change (comma_separated_list v (item :: item' :: items') output_rhs w)
        with ((v item ;; output_default v output_rhs item ;; put ", " ;;
               comma_separated_list v (item' :: items') output_rhs) w).
      assert (H1 := fun w' => proj1 (H item w' (or_introl eq_refl))).
      assert (H2 := fun w' => proj2 (H item w' (or_introl eq_refl))).
      unfold seq at 1. rewrite H1, put_eq.
      unfold seq at 1. rewrite H2.
      unfold seq at 1. rewrite put_eq.
      rewrite IH by (intros; apply H; right; assumption).
      cbn [map join String.concat]. rewrite !put_eq. cbn.
      rewrite !append_assoc. reflexivity.
Qed.

(** C3. The default of the last item is not written: with the suffix
    requested, the one declarator of [cdef int a = 1] is written [a], and
    of the two declarators [a = 1] and [b = 2] only the first gets its
    suffix.  [visit_CVarDefNode], the caller that requests the suffix,
    commits the line [cdef int a]. *)
Theorem C3_default_of_last_item_dropped :
  comma_separated_list (visit ex_repr CodeWriter) [ex_declarator "a" "1"]
    true init = put "a" init /\
  comma_separated_list (visit ex_repr CodeWriter)
    [ex_declarator "a" "1"; ex_declarator "b" "2"] true init =
  put "a = 1, b" init /\
  visit ex_repr CodeWriter ex_cvardef init =
  Returns (with_buffer ["cdef int a"] EmptyString init).
Proof. repeat split; vm_compute; reflexivity. Qed.

(** ** C5: keyword arguments of a general call *)



(** ** C6: cascaded comparisons *)

(** C6. For [a < b > c] the text put is [a < b<c]: the link of the
    cascade is written with the operator of the head of the chain, not
    with its own. *)
Theorem C6_cascade_repeats_head_operator :
  visit ex_repr CodeWriter ex_cmp init = put "a < b<c" init.
Proof. vm_compute. reflexivity. Qed.

(** ** C8: inline functions in the declarations writer *)

(** C8. The declarations writer returns from a C function definition
    whose modifiers hold [inline] without touching the writer: no line is
    committed and nothing is put. *)
Theorem C8_inline_function_skipped (repr : string -> string)
    (type : list string) (modifiers : list string) (overridable : bool)
    (visibility : string) (api : bool) (declarator body : node) (w : writer) :
  In "inline" modifiers ->
  visit repr PxdWriter
    (Node ("CFuncDefNode" :: type)
       (CFuncDefNode modifiers overridable visibility api declarator body)) w
  = Returns w.
Proof.
  intros H.
  rewrite (visit_dispatch _ _ _ _ _ m_PxdWriter_CFuncDefNode) by reflexivity.
  unfold call_method; cbn [fields_of]. unfold PxdWriter_visit_CFuncDefNode.
  assert (Hin : existsb (String.eqb "inline") modifiers = true).
  { apply List.existsb_exists. exists "inline". split; [exact H |].
    apply String.eqb_refl. }
  rewrite Hin. reflexivity.
Qed.

(** ** C9: the body of a container *)

Lemma append_nil_l (x : string) : EmptyString +:+ x = x.
Proof. reflexivity. Qed.

(** The header line of a container, and the indent that follows it. *)
Lemma container_head (name cname : option string) (decl : string)
    (extras : option string) (rest : M) (w : writer) :
  (startline decl ;;
   when (truthy name) (
     put " " ;;
     put_obj name ;;
     match cname with
     | Some c => put (" " +:+ dquote +:+ c +:+ dquote)
     | None => ret
     end) ;;
   when (truthy extras) (put_obj extras) ;;
   endline ":" ;;
   indent ;;
   rest) w =
  rest (set_numindents (numindents w + 1)
          (with_buffer
             (LinesResult.lines (result w) ++
              [LinesResult.s (result w) +:+ indentation w +:+
               container_header name cname decl extras])
             EmptyString w)).
Proof.
  unfold container_header, indentation.
  destruct w as [[ls cur] k names b].
  destruct name as [name |], cname as [cname |], extras as [extras |];
    cbn [truthy default];
    repeat match goal with
           | |- context [negb (String.eqb ?x EmptyString)] =>
               destruct (String.eqb x EmptyString)
           end;
    cbn [negb when put_obj];
    unfold seq, startline, put, endline, indent, ret, with_buffer, set_result,
      set_numindents, LinesResult.putline, LinesResult.newline,
      LinesResult.put;
    cbn [result numindents tempnames tempblockindex LinesResult.lines
         LinesResult.s];
    rewrite ?append_assoc, ?append_nil_r, ?append_nil_l; reflexivity.
Qed.

Lemma visit_container_node_eq (v : node -> M) (name cname : option string)
    (decl : string) (extras : option string)
    (attributes : option (list node)) (w : writer) :
  let header := LinesResult.s (result w) +:+ indentation w +:+
                container_header name cname decl extras in
  let inside := set_numindents (numindents w + 1)
                  (with_buffer (LinesResult.lines (result w) ++ [header])
                     EmptyString w) in
  visit_container_node v name cname decl extras attributes w =
  match attributes with
  | None | Some [] =>
      Returns (with_buffer
                 (LinesResult.lines (result w) ++
                  [header; indentation inside +:+ "pass"])
                 EmptyString w)
  | Some attributes' =>
      match visit_in_order v attributes' inside with
      | Returns w' => Returns (set_numindents (numindents w' - 1) w')
      | Raises e w' => Raises e w'
      end
  end.
Proof.
  intros header inside. unfold visit_container_node.
  rewrite container_head. fold header. fold inside.
  assert (Hempty :
    (putline "pass" ;; dedent) inside =
    Returns (with_buffer
               (LinesResult.lines (result w) ++
                [header; indentation inside +:+ "pass"])
               EmptyString w)).
  { unfold inside, seq, putline, dedent, with_buffer, set_result,
      set_numindents, LinesResult.putline, LinesResult.newline,
      LinesResult.put, indentation.
    cbn [result numindents tempnames tempblockindex LinesResult.lines
         LinesResult.s].
    rewrite append_nil_l, <- List.app_assoc, Z.add_simpl_r. reflexivity. }
  destruct attributes as [[| a attributes'] |]; [exact Hempty | | exact Hempty].
  unfold seq. rewrite for_each_in_order.
  destruct (visit_in_order v (a :: attributes') inside); reflexivity.
Qed.

(** C9. Structs and unions, C++ classes and enums are written by
    [visit_container_node].  With no attribute list, or an empty one, the
    body is one line, [pass] one level deeper than the header, and the
    indent level is back where it was.  With attributes, the header is
    followed by the attributes, visited in order one level deeper. *)
Theorem C9_container_body (repr : string -> string) (cls : writer_class) :
  (forall type name cname typedef_flag visibility packed kind attributes,
     exists decl,
       visit repr cls
         (Node ("CStructOrUnionDefNode" :: type)
            (CStructOrUnionDefNode name cname typedef_flag visibility packed
               kind attributes))
       = visit_container_node (visit repr cls) name cname decl None
           attributes) /\
  (forall type name cname templates base_classes attributes,
     exists extras,
       visit repr cls
         (Node ("CppClassNode" :: type)
            (CppClassNode name cname templates base_classes attributes))
       = visit_container_node (visit repr cls) name cname "cdef cppclass"
           (Some extras) attributes) /\
  (forall type name cname items,
     visit repr cls
       (Node ("CEnumDefNode" :: type) (CEnumDefNode name cname items))
     = visit_container_node (visit repr cls) name cname "cdef enum" None
         items) /\
  (forall v name cname decl extras attributes w,
     let header := LinesResult.s (result w) +:+ indentation w +:+
                   container_header name cname decl extras in
     let inside := set_numindents (numindents w + 1)
                     (with_buffer (LinesResult.lines (result w) ++ [header])
                        EmptyString w) in
     visit_container_node v name cname decl extras attributes w =
     match attributes with
     | None | Some [] =>
         Returns (with_buffer
                    (LinesResult.lines (result w) ++
                     [header; indentation inside +:+ "pass"])
                    EmptyString w)
     | Some attributes' =>
         match visit_in_order v attributes' inside with
         | Returns w' => Returns (set_numindents (numindents w' - 1) w')
         | Raises e w' => Raises e w'
         end
     end).
Proof.
  repeat split.
  - intros. eexists.
    rewrite (visit_dispatch _ _ _ _ _ m_CStructOrUnionDefNode)
      by (destruct cls; reflexivity).
    unfold call_method; cbn [fields_of]. unfold visit_CStructOrUnionDefNode.
    cbv zeta. reflexivity.
  - intros. eexists.
    rewrite (visit_dispatch _ _ _ _ _ m_CppClassNode)
      by (destruct cls; reflexivity).
    unfold call_method; cbn [fields_of]. unfold visit_CppClassNode.
    cbv zeta. reflexivity.
  - intros.
    rewrite (visit_dispatch _ _ _ _ _ m_CEnumDefNode)
      by (destruct cls; reflexivity).
    reflexivity.
  - intros. apply visit_container_node_eq.
Qed.

(** ** C10: list and tuple literals *)

Lemma for_each_put {A : Type} (f : A -> M) (text : A -> string)
    (l : list A) (w : writer) :
  (forall x w', In x l -> f x w' = put (text x) w') ->
  for_each f l w = put (cat (map text l)) w.
Proof.
  revert w. induction l as [| x l IH]; intros w H.
  - simpl. rewrite put_eq, append_nil_r. destruct w as [[? ?] ? ? ?].
    reflexivity.
  - cbn [for_each map cat fold_right]. unfold seq.
    rewrite (H x w) by (left; reflexivity). rewrite put_eq.
    rewrite IH by (intros; apply H; right; assumption).
    rewrite !put_eq. cbn. rewrite append_assoc. reflexivity.
Qed.



(** ** C7: indentation *)

(** C7. In every writer, when the visit of a node returns, the indent
    level is what it was when the visit began. *)
Theorem C7_indentation_balance (repr : string -> string)
    (cls : writer_class) (n : node) (w w' : writer) :
  visit repr cls n w = Returns w' -> numindents w' = numindents w.
Proof.
  intros H. destruct (effect_visit repr cls n w) as [_ Hn].
  rewrite (Hn w' H). lia.
Qed.

(** ** C4: the names of temporaries *)

Lemma fmt_d_inj (x y : Z) : fmt_d x = fmt_d y -> x = y.
Proof.
  unfold fmt_d. intros H.
  assert (H' : Some (Z.to_int x) = Some (Z.to_int y)).
  { rewrite <- !NilEmpty.isi. rewrite H. reflexivity. }
  injection H' as H'.
  rewrite <- (DecimalZ.of_to x), <- (DecimalZ.of_to y), H'. reflexivity.
Qed.

Lemma occurs_string_of_uint (d : Decimal.uint) :
  occurs "_" (NilEmpty.string_of_uint d) = false.
Proof. induction d; simpl; auto. Qed.

Lemma occurs_fmt_d (x : Z) : occurs "_" (fmt_d x) = false.
Proof.
  unfold fmt_d. destruct (Z.to_int x); simpl; apply occurs_string_of_uint.
Qed.

Lemma append_cons (a : ascii) (x y : string) :
  String a x +:+ y = String a (x +:+ y).
Proof. reflexivity. Qed.

(** A text is cut in one way only at the first occurrence of a
    character. *)
Lemma append_separator_inj (c : ascii) (x1 x2 y1 y2 : string) :
  occurs c x1 = false -> occurs c x2 = false ->
  x1 +:+ String c y1 = x2 +:+ String c y2 -> x1 = x2 /\ y1 = y2.
Proof.
  revert x2. induction x1 as [| a1 x1 IH]; intros [| a2 x2] H1 H2 H.
  - rewrite !append_nil_l in H. injection H as H. auto.
  - rewrite append_nil_l, append_cons in H. injection H as Ha _.
    subst a2. simpl in H2. rewrite Ascii.eqb_refl in H2. discriminate.
  - rewrite append_nil_l, append_cons in H. injection H as Ha _.
    subst a1. simpl in H1. rewrite Ascii.eqb_refl in H1. discriminate.
  - rewrite !append_cons in H. injection H as Ha H. subst a2.
    simpl in H1, H2. apply orb_false_iff in H1 as [_ H1].
    apply orb_false_iff in H2 as [_ H2].
    destruct (IH x2 H1 H2 H) as [-> ->]. auto.
Qed.

Lemma temp_name_inj (b1 i1 b2 i2 : Z) :
  temp_name b1 i1 = temp_name b2 i2 -> b1 = b2 /\ i1 = i2.
Proof.
  unfold temp_name. intros H.
  change ("$" +:+ fmt_d b1 +:+ "_" +:+ fmt_d i1)
    with (String "$" (fmt_d b1 +:+ String "_" (fmt_d i1))) in H.
  change ("$" +:+ fmt_d b2 +:+ "_" +:+ fmt_d i2)
    with (String "$" (fmt_d b2 +:+ String "_" (fmt_d i2))) in H.
  injection H as H.
  apply append_separator_inj in H as [Hb Hi]; try apply occurs_fmt_d.
  split; apply fmt_d_inj; assumption.
Qed.

(** The loop of [visit_TempsBlockNode], counting from [k]. *)
Lemma name_temps (temps : list handle) (k : Z) (w : writer) :
  exists w1,
    for_each_enum_from
      (fun idx h w =>
         Returns (set_tempname h (temp_name (tempblockindex w) idx) w))
      k temps w = Returns w1 /\
    result w1 = result w /\
    numindents w1 = numindents w /\
    tempblockindex w1 = tempblockindex w /\
    (forall h, ~ In h temps -> tempnames w1 !! h = tempnames w !! h) /\
    (forall i h,
       nth_error temps i = Some h ->
       (forall j, (i < j)%nat -> nth_error temps j <> Some h) ->
       tempnames w1 !! h =
       Some (temp_name (tempblockindex w) (k + Z.of_nat i))).
Proof.
  revert k w. induction temps as [| x temps IH]; intros k w.
  - exists w. simpl. repeat split; auto. intros [| i] h H; discriminate.
  - set (w0 := set_tempname x (temp_name (tempblockindex w) k) w).
    destruct (IH (k + 1) w0) as (w1 & Hrun & Hres & Hind & Hidx & Hout & Hin).
    exists w1. cbn [for_each_enum_from]. unfold seq. fold w0.
    split; [exact Hrun |]. repeat split; try assumption.
    + intros h Hh. rewrite Hout by (intros Hin'; apply Hh; right; exact Hin').
      unfold w0. simpl.
      apply lookup_insert_ne. intros ->. apply Hh. left. reflexivity.
    + intros [| i] h Hnth Hlast.
      * simpl in Hnth. injection Hnth as ->.
        rewrite Hout.
        { unfold w0. simpl. rewrite lookup_insert_eq.
          rewrite Z.add_0_r. reflexivity. }
        intros Hin'. apply List.In_nth_error in Hin' as [j Hj].
        apply (Hlast (S j)); [lia | exact Hj].
      * simpl in Hnth. rewrite (Hin i h Hnth).
        { unfold w0. simpl. do 2 f_equal. lia. }
        intros j Hj. apply (Hlast (S j)). lia.
Qed.

(** C4. In the full writer a block of temporaries, visited when the
    block counter is [b], gives the handle in slot [i] of its list, slots
    counted from 0, the name [temp_name b i], which is "$b_i" (a handle
    listed twice keeps the name of its last slot), names no other handle,
    and visits its body with the counter at [b + 1].  No visit ever
    lowers the counter, so the counter is above [b] ever after, and a
    name made with another counter value differs from the names of this
    block whatever the slots: two names are equal only if both the block
    and the slot are. *)
Theorem C4_temporary_names (repr : string -> string) (type : list string)
    (temps : list handle) (body : node) (w : writer) :
  let block := Node ("TempsBlockNode" :: type) (TempsBlockNode temps body) in
  let b := tempblockindex w in
  (exists w1,
     visit repr CodeWriter block w = visit repr CodeWriter body w1 /\
     tempblockindex w1 = b + 1 /\
     result w1 = result w /\
     numindents w1 = numindents w /\
     (forall i h,
        nth_error temps i = Some h ->
        (forall j, (i < j)%nat -> nth_error temps j <> Some h) ->
        tempnames w1 !! h = Some (temp_name b (Z.of_nat i))) /\
     (forall h, ~ In h temps -> tempnames w1 !! h = tempnames w !! h)) /\
  b < tempblockindex (final (visit repr CodeWriter block w)) /\
  (forall cls n w2,
     tempblockindex w2 <= tempblockindex (final (visit repr cls n w2))) /\
  (forall b' i j, b < b' -> temp_name b i <> temp_name b' j) /\
  (forall b1 i1 b2 i2,
     temp_name b1 i1 = temp_name b2 i2 -> b1 = b2 /\ i1 = i2) /\
  temp_name 1 0 = "$1_0".
Proof.
  intros block b.
  assert (Hmono : forall cls n w2,
    tempblockindex w2 <= tempblockindex (final (visit repr cls n w2))).
  { intros cls n w2. apply (effect_visit repr cls n w2). }
  destruct (name_temps temps 0 w)
    as (w0 & Hrun & Hres & Hind & Hidx & Hout & Hin).
  set (w1 := set_tempblockindex (tempblockindex w0 + 1) w0).
  assert (Hvisit :
    visit repr CodeWriter block w = visit repr CodeWriter body w1).
  { unfold block.
    rewrite (visit_dispatch _ _ _ _ _ m_TempsBlockNode) by reflexivity.
    unfold call_method; cbn [fields_of]. unfold visit_TempsBlockNode.
    unfold for_each_enum, seq. rewrite Hrun. reflexivity. }
  split; [| split; [| split; [| split; [| split]]]].
  - exists w1. split; [exact Hvisit |]. unfold w1. simpl.
    repeat split; try assumption. unfold b. lia.
  - rewrite Hvisit. specialize (Hmono CodeWriter body w1).
    unfold w1 in Hmono at 1. simpl in Hmono. unfold b. lia.
  - exact Hmono.
  - intros b' i j Hlt Heq. apply temp_name_inj in Heq as [Heq _]. lia.
  - apply temp_name_inj.
  - reflexivity.
Qed.

(** ** The statements at concrete trees *)

Lemma C1_unhandled_kind_aborts_witness :
  (forall c, In c (type_of ex_lambda) -> getattr_visit CodeWriter c = None) /\
  visit ex_repr CodeWriter ex_lambda init =
  Raises (not_handled ex_lambda) init.
Proof.
  assert (H : forall c,
    In c (type_of ex_lambda) -> getattr_visit CodeWriter c = None).
  { intros c [<- | [<- | [<- | []]]]; reflexivity. }
  split; [exact H |].
  exact (proj1 (C1_unhandled_kind_aborts ex_repr CodeWriter ex_lambda H init)).
Defined.


Lemma C7_indentation_balance_witness :
  visit ex_repr CodeWriter ex_for init =
  Returns (with_buffer ["for x in xs:"; "    pass"] EmptyString init) /\
  numindents (with_buffer ["for x in xs:"; "    pass"] EmptyString init) =
  numindents init.
Proof.
  assert (H : visit ex_repr CodeWriter ex_for init =
              Returns (with_buffer ["for x in xs:"; "    pass"] EmptyString
                         init)).
  { vm_compute. reflexivity. }
  split; [exact H |].
  exact (C7_indentation_balance ex_repr CodeWriter ex_for init _ H).
Defined.

Lemma C8_inline_function_skipped_witness :
  In "inline" ["inline"] /\
  visit ex_repr PxdWriter ex_inline init = Returns init.
Proof.
  assert (H : In "inline" ["inline"]) by (left; reflexivity).
  split; [exact H |].
  exact (C8_inline_function_skipped ex_repr _ ["inline"] false "private"
           false _ _ init H).
Defined.

(** The examples of the specification. *)

Example empty_statement_list :
  write ex_repr CodeWriter (ex_stats []) init
  = inr (LinesResult.mk ["pass"] EmptyString).
Proof. vm_compute. reflexivity. Qed.

Example for_loop :
  write ex_repr CodeWriter ex_for init
  = inr (LinesResult.mk ["for x in xs:"; "    pass"] EmptyString).
Proof. vm_compute. reflexivity. Qed.

Example cascaded_assignment :
  write ex_repr CodeWriter
    (Node ["CascadedAssignmentNode"; "AssignmentNode"; "StatNode"]
       (CascadedAssignmentNode [ex_name "a"; ex_name "b"] (ex_int "1")))
    init
  = inr (LinesResult.mk ["a = b = 1"] EmptyString).
Proof. vm_compute. reflexivity. Qed.

Example keyword_call :
  write ex_repr CodeWriter ex_call init
  = inl (Exception "Not implemented yet").
Proof. vm_compute. reflexivity. Qed.

(** The two blocks of [ex_temps] name their temporaries [$0_0] and
    [$1_0]. *)
Example nested_temporaries :
  write ex_repr CodeWriter ex_temps init
  = inr (LinesResult.mk ["($0_0,$1_0,)"] EmptyString).
Proof. vm_compute. reflexivity. Qed.

Example empty_struct :
  write ex_repr DeclarationWriter
    (Node ["CStructOrUnionDefNode"; "StatNode"]
       (CStructOrUnionDefNode (Some "point") (Some "point_t") true "public"
          false "struct" (Some [])))
    init
  = inr (LinesResult.mk
           ["ctypedef public struct point " +:+ dquote +:+ "point_t" +:+
            dquote +:+ ":";
            "    pass"] EmptyString).
Proof. vm_compute. reflexivity. Qed.

(** [while x: pass] with its [else] branch, and a list literal as a
    statement. *)
Example while_else :
  write ex_repr CodeWriter
    (Node ["WhileStatNode"; "LoopNode"; "StatNode"]
       (WhileStatNode (ex_name "x") ex_pass
          (Some (Node ["ExprStatNode"; "StatNode"]
                   (ExprStatNode
                      (Node ["ListNode"; "SequenceNode"; "ExprNode"]
                         (ListNode [ex_int "1"; ex_int "2"])))))))
    init
  = inr (LinesResult.mk
           ["while x:"; "    pass"; "else:"; "    [1,2,]"] EmptyString).
Proof. vm_compute. reflexivity. Qed.

(** A statement without a rule of its own is passed over by the
    declarations writer and refused by the two others. *)
Example statement_without_rule :
  let n := Node ["GlobalNode"; "StatNode"] OtherNode in
  visit ex_repr PxdWriter n init = Returns init /\
  visit ex_repr CodeWriter n init = Raises (not_handled n) init /\
  visit ex_repr DeclarationWriter n init = Raises (not_handled n) init.
Proof. repeat split. Qed.

(** * Further properties of the writers *)

(** ** Relations every method keeps *)

Section Respects.

Variable R : writer -> writer -> Prop.
Hypothesis R_refl : forall w, R w w.
Hypothesis R_trans : forall w1 w2 w3, R w1 w2 -> R w2 w3 -> R w1 w3.
Hypothesis R_put :
  forall w x, R w (set_result (LinesResult.put (result w) x) w).

Lemma respects_ret : respects R ret.
Proof. intros w. apply R_refl. Qed.

Lemma respects_raise (e : exn) : respects R (raise e).
Proof. intros w. apply R_refl. Qed.

Lemma respects_seq (a b : M) :
  respects R a -> respects R b -> respects R (a ;; b).
Proof.
  intros Ha Hb w. unfold seq. specialize (Ha w).
  destruct (a w) as [w1 | e w1]; simpl in *.
  - apply R_trans with w1; [exact Ha | apply Hb].
  - exact Ha.
Qed.

Lemma respects_put (x : string) : respects R (put x).
Proof. intros w. apply R_put. Qed.

Lemma respects_startline (x : string) : respects R (startline x).
Proof. intros w. apply R_put. Qed.

Lemma respects_put_obj (x : option string) : respects R (put_obj x).
Proof. destruct x; [apply respects_put | apply respects_raise]. Qed.

Lemma respects_when (c : bool) (body : M) :
  respects R body -> respects R (when c body).
Proof. destruct c; [trivial | intros _; apply respects_ret]. Qed.

Lemma respects_for_each {A : Type} (f : A -> M) (l : list A) :
  (forall x, In x l -> respects R (f x)) -> respects R (for_each f l).
Proof.
  induction l as [| x l IH]; intros H; simpl.
  - apply respects_ret.
  - apply respects_seq; [apply H; left; reflexivity |].
    apply IH. intros y Hy. apply H. right. assumption.
Qed.

Lemma respects_for_each_enum {A : Type} (f : Z -> A -> M) (l : list A) :
  (forall i x, In x l -> respects R (f i x)) ->
  respects R (for_each_enum f l).
Proof.
  unfold for_each_enum. generalize 0.
  induction l as [| x l IH]; intros i H; simpl.
  - apply respects_ret.
  - apply respects_seq; [apply H; left; reflexivity |].
    apply IH. intros j y Hy. apply H. right. assumption.
Qed.

Lemma respects_visit_TempRefNode (h : handle) :
  respects R (visit_TempRefNode h).
Proof.
  intros w. unfold visit_TempRefNode. destruct (tempnames w !! h).
  - apply R_put.
  - apply R_refl.
Qed.

Section Committing.

Hypothesis R_newline :
  forall w, R w (set_result (LinesResult.newline (result w)) w).
Hypothesis R_numindents : forall w k, R w (set_numindents k w).

Lemma respects_endline (x : string) : respects R (endline x).
Proof.
  intros w. simpl.
  apply R_trans with (set_result (LinesResult.put (result w) x) w).
  - apply R_put.
  - apply (R_newline (set_result (LinesResult.put (result w) x) w)).
Qed.

Lemma respects_putline (x : string) : respects R (putline x).
Proof.
  intros w. simpl.
  apply R_trans
    with (set_result (LinesResult.put (result w) (indentation w +:+ x)) w).
  - apply R_put.
  - apply (R_newline
             (set_result (LinesResult.put (result w) (indentation w +:+ x))
                w)).
Qed.

Lemma respects_line (x : string) : respects R (line x).
Proof.
  unfold line. apply respects_seq;
    [apply respects_startline | apply respects_endline].
Qed.

Lemma respects_indent : respects R indent.
Proof. intros w. apply R_numindents. Qed.

Lemma respects_dedent : respects R dedent.
Proof. intros w. apply R_numindents. Qed.

Lemma respects_visit_FromCImportStatNode module_name imported_names :
  respects R (visit_FromCImportStatNode module_name imported_names).
Proof.
  unfold visit_FromCImportStatNode.
  apply respects_seq; [apply respects_startline |].
  apply respects_seq; [apply respects_put |].
  apply respects_seq; [apply respects_put |].
  apply respects_seq; [| apply respects_endline].
  match goal with
  | |- respects R (?loop true _) =>
      enough (H : forall first, respects R (loop first imported_names))
        by apply H
  end.
  induction imported_names as [| [[name as_name] kind] l IH]; intros first.
  - apply respects_ret.
  - apply respects_seq.
    { destruct kind; [apply respects_raise | apply respects_ret]. }
    apply respects_seq.
    { destruct first; [apply respects_ret | apply respects_put]. }
    apply respects_seq; [apply respects_put |].
    apply respects_seq; [| apply IH].
    apply respects_when.
    apply respects_seq; [apply respects_put | apply respects_put_obj].
Qed.

End Committing.

Section OfMethods.

Variable v : node -> M.

Lemma respects_visit_enumerated (sep : string) (args : list node) :
  (forall x, In x args -> respects R (v x)) ->
  respects R (visit_enumerated v sep args).
Proof.
  intros H. apply respects_for_each_enum. intros i x Hx.
  apply respects_seq; [apply respects_when, respects_put | apply H, Hx].
Qed.

Lemma respects_output_default (output_rhs : bool) (item : node) :
  (forall c, In c (subnodes item) -> respects R (v c)) ->
  respects R (output_default v output_rhs item).
Proof.
  intros H. unfold output_default. destruct output_rhs; [| apply respects_ret].
  destruct item as [type fields].
  destruct fields; try apply respects_raise;
    match goal with
    | |- context [match ?d with Some _ => _ | None => _ end] => destruct d
    end;
    try apply respects_ret;
    (apply respects_seq; [apply respects_put |]);
    apply H; unfold subnodes; simpl; auto.
Qed.

Lemma respects_comma_separated_list (items : list node) (output_rhs : bool) :
  (forall x, In x items -> respects R (v x)) ->
  (forall x c, In x items -> In c (subnodes x) -> respects R (v c)) ->
  respects R (comma_separated_list v items output_rhs).
Proof.
  induction items as [| item rest IH]; intros H1 H2.
  - apply respects_ret.
  - destruct rest as [| item' rest'].
    + apply H1. left. reflexivity.
    + change (respects R
                (v item ;; output_default v output_rhs item ;;
                 put ", " ;;
                 comma_separated_list v (item' :: rest') output_rhs)).
      apply respects_seq; [apply H1; left; reflexivity |].
      apply respects_seq.
      { apply respects_output_default. intros c Hc.
        apply (H2 item c); [left; reflexivity | assumption]. }
      apply respects_seq; [apply respects_put |].
      apply IH.
      * intros x Hx. apply H1. right. assumption.
      * intros x c Hx Hc. apply (H2 x c); [right |]; assumption.
Qed.

End OfMethods.

Local Ltac member :=
  unfold subnodes;
  cbn [fields_of opt_nodes opt_list_nodes map fst snd In] in *;
  rewrite ?List.in_app_iff; cbn [In map fst snd];
  solve [intuition (auto using List.in_map)].

Local Ltac child H :=
  apply H;
  first
    [ apply desc_child; member
    | match type of H with
      | context [Node ?t ?f] =>
          apply (desc_step _ (Node t f)); [apply desc_child; member | member]
      end ].

Local Ltac resp H :=
  cbv beta;
  lazymatch goal with
  | |- respects _ (seq _ _) => apply respects_seq; [resp H | resp H]
  | |- respects _ ret => apply respects_ret
  | |- respects _ (raise _) => apply respects_raise
  | |- respects _ (put _) => apply respects_put
  | |- respects _ (put_obj _) => apply respects_put_obj
  | |- respects _ (startline _) => apply respects_startline
  | |- respects _ (putline _) => apply respects_putline; assumption
  | |- respects _ (endline _) => apply respects_endline; assumption
  | |- respects _ (line _) => apply respects_line; assumption
  | |- respects _ indent => apply respects_indent; assumption
  | |- respects _ dedent => apply respects_dedent; assumption
  | |- respects _ (visit_TempRefNode _) => apply respects_visit_TempRefNode
  | |- respects _ (visit_FromCImportStatNode _ _) =>
      apply respects_visit_FromCImportStatNode; assumption
  | |- respects _ (fun w => Returns (set_tempname _ _ w)) =>
      let w := fresh "w" in intros w; simpl; auto
  | |- respects _ (fun w => Returns (set_tempblockindex _ w)) =>
      let w := fresh "w" in intros w; simpl; auto
  | |- respects _ (when _ _) => apply respects_when; resp H
  | |- respects _ (for_each _ _) =>
      apply respects_for_each;
      let x := fresh "x" in
      let Hx := fresh "Hx" in
      intros x Hx;
      try pose proof (List.in_map fst _ _ Hx);
      try pose proof (List.in_map snd _ _ Hx);
      resp H
  | |- respects _ (for_each_enum _ _) =>
      apply respects_for_each_enum; intros; resp H
  | |- respects _ (visit_enumerated _ _ _) =>
      apply respects_visit_enumerated; intros; child H
  | |- respects _ (comma_separated_list _ _ _) =>
      apply respects_comma_separated_list;
      [ intros; child H
      | let x := fresh "x" in
        let c := fresh "c" in
        let Hx := fresh "Hx" in
        let Hc := fresh "Hc" in
        intros x c Hx Hc; apply H;
        apply (desc_step c x); [apply desc_child; exact Hc | member] ]
  | |- respects _ (visitchild _ ?c) => unfold visitchild; resp H
  | |- respects _ (match ?x with _ => _ end) => destruct x; resp H
  | |- respects _ (_ _) => child H
  end.

(** A relation that every primitive a method uses keeps is kept by the
    method, if the visits of the nodes below keep it. *)
Lemma respects_call_method (v : node -> M) (repr : string -> string)
    (m : method) (n : node) :
  (ends_line m = true ->
   (forall w, R w (set_result (LinesResult.newline (result w)) w)) /\
   (forall w k, R w (set_numindents k w))) ->
  (m = m_TempsBlockNode ->
   (forall w h x, R w (set_tempname h x w)) /\
   (forall w, R w (set_tempblockindex (tempblockindex w + 1) w))) ->
  (forall c, descendant c n -> respects R (v c)) ->
  respects R (call_method v repr m n).
Proof.
  intros Hc Ht H. destruct n as [type fields].
  destruct m;
    try (destruct (Hc eq_refl) as [Hnl Hind]);
    try (destruct (Ht eq_refl) as [Htn Hnb]);
    clear Hc Ht;
    destruct fields;
    try apply respects_raise;
    unfold call_method; cbn [fields_of];
    unfold visit_Node, visit_ModuleNode, visit_StatListNode,
      visit_CDefExternNode, visit_CPtrDeclaratorNode,
      visit_CReferenceDeclaratorNode, visit_CArrayDeclaratorNode,
      visit_CFuncDeclaratorNode, visit_CNameDeclaratorNode,
      visit_CSimpleBaseTypeNode, visit_CComplexBaseTypeNode,
      visit_CNestedBaseTypeNode, visit_TemplatedTypeNode, visit_CVarDefNode,
      visit_CStructOrUnionDefNode, visit_CppClassNode, visit_CEnumDefNode,
      visit_container_node, visit_CEnumDefItemNode, visit_CClassDefNode,
      visit_PyClassDefNode, visit_CTypeDefNode, visit_FuncDefNode,
      visit_CArgDeclNode, visit_CImportStatNode, visit_NameNode,
      visit_IntNode, visit_NoneNode, visit_NotNode, visit_DecoratorNode,
      visit_BinopNode, visit_AttributeNode, visit_BoolNode, visit_StringNode,
      visit_PassStatNode, visit_ListNode, visit_TupleNode, visit_UnicodeNode,
      visit_AssertStatNode, visit_SingleAssignmentNode,
      visit_CascadedAssignmentNode, visit_PrintStatNode, visit_ForInStatNode,
      visit_IfStatNode, visit_SequenceNode, visit_SimpleCallNode,
      visit_GeneralCallNode, visit_ExprStatNode, visit_InPlaceAssignmentNode,
      visit_WithStatNode, visit_TryFinallyStatNode, visit_TryExceptStatNode,
      visit_ExceptClauseNode, visit_ReturnStatNode, visit_ReraiseStatNode,
      visit_ImportNode, visit_TempsBlockNode, visit_BytesNode,
      visit_ContinueStatNode, visit_WhileStatNode, visit_BreakStatNode,
      visit_CoerceToBooleanNode, visit_FloatNode, visit_CoerceToTempNode,
      visit_FromImportStatNode, visit_PrimaryCmpNode, visit_BoolBinopNode,
      visit_IndexNode, visit_NullNode, visit_RaiseStatNode,
      CodeWriter_visit_CFuncDefNode, PxdWriter_visit_CFuncDefNode,
      PxdWriter_visit_StatNode;
    cbv zeta.
  all: solve [resp H].
Qed.

End Respects.

Lemma respects_visit (R : writer -> writer -> Prop)
    (repr : string -> string) (cls : writer_class) :
  (forall w, R w w) ->
  (forall w1 w2 w3, R w1 w2 -> R w2 w3 -> R w1 w3) ->
  (forall w x, R w (set_result (LinesResult.put (result w) x) w)) ->
  (forall w, R w (set_result (LinesResult.newline (result w)) w)) ->
  (forall w k, R w (set_numindents k w)) ->
  (forall w h x, R w (set_tempname h x w)) ->
  (forall w, R w (set_tempblockindex (tempblockindex w + 1) w)) ->
  forall n, respects R (visit repr cls n).
Proof.
  intros Hrefl Htrans Hput Hnl Hind Htn Hnb n.
  induction n as [n IH] using node_descendant_ind. rewrite visit_eq.
  destruct (find_handler cls (mro n)) as [m |].
  - apply respects_call_method; auto.
  - apply respects_raise. exact Hrefl.
Qed.

Lemma cat_app (l1 l2 : list string) : cat (l1 ++ l2) = cat l1 +:+ cat l2.
Proof.
  induction l1 as [| x l1 IH]; [reflexivity |].
  change (x +:+ cat (l1 ++ l2) = (x +:+ cat l1) +:+ cat l2).
  rewrite IH, append_assoc. reflexivity.
Qed.

(** ** The buffer only grows *)

(** X1. A line, once committed, stays: whatever node is visited, in
    whatever writer, and whether the visit returns or raises, the
    committed lines of the writer afterwards are the lines it had before
    followed by new ones. *)
Theorem committed_lines_are_kept (repr : string -> string)
    (cls : writer_class) (n : node) (w : writer) :
  exists new_lines,
    LinesResult.lines (result (final (visit repr cls n w))) =
    (LinesResult.lines (result w) ++ new_lines)%list.
Proof.
  apply (respects_visit
           (fun w w' => exists new_lines,
              LinesResult.lines (result w') =
              (LinesResult.lines (result w) ++ new_lines)%list)).
  - intros w0. exists []. rewrite List.app_nil_r. reflexivity.
  - intros w1 w2 w3 [l1 H1] [l2 H2]. exists (l1 ++ l2)%list.
    rewrite H2, H1, List.app_assoc. reflexivity.
  - intros w0 x. exists []. simpl. rewrite List.app_nil_r. reflexivity.
  - intros w0. eexists. reflexivity.
  - intros w0 k. exists []. simpl. rewrite List.app_nil_r. reflexivity.
  - intros w0 h x. exists []. simpl. rewrite List.app_nil_r. reflexivity.
  - intros w0. exists []. simpl. rewrite List.app_nil_r. reflexivity.
Qed.

(** X2. Output is append-only: the text of the buffer after a visit, the
    committed lines and the line in progress taken end to end, is the text
    it held before followed by new text.  No method erases or rewrites
    what was written, on return or on raise. *)
Theorem output_is_append_only (repr : string -> string)
    (cls : writer_class) (n : node) (w : writer) :
  exists text, written (final (visit repr cls n w)) = written w +:+ text.
Proof.
  apply (respects_visit
           (fun w w' => exists text, written w' = written w +:+ text)).
  - intros w0. exists EmptyString. rewrite append_nil_r. reflexivity.
  - intros w1 w2 w3 [t1 H1] [t2 H2]. exists (t1 +:+ t2).
    rewrite H2, H1, append_assoc. reflexivity.
  - intros w0 x. exists x. unfold written. simpl.
    rewrite append_assoc. reflexivity.
  - intros w0. exists EmptyString. unfold written. simpl.
    rewrite cat_app. cbn [cat fold_right].
    rewrite !append_nil_r. reflexivity.
  - intros w0 k. exists EmptyString. rewrite append_nil_r. reflexivity.
  - intros w0 h x. exists EmptyString. rewrite append_nil_r. reflexivity.
  - intros w0. exists EmptyString. rewrite append_nil_r. reflexivity.
Qed.

(** ** The table of temporaries *)

Lemma lookup_method_in (name : string) (methods : list (string * method))
    (m : method) :
  lookup_method name methods = Some m -> In (name, m) methods.
Proof.
  induction methods as [| [name' m'] methods IH]; simpl; [discriminate |].
  destruct (String.eqb_spec name name') as [-> | Hne].
  - intros [= ->]. left. reflexivity.
  - intros H. right. apply IH. exact H.
Qed.

Lemma find_handler_in (cls : writer_class) (classes : list string)
    (m : method) :
  find_handler cls classes = Some m ->
  exists c, In c classes /\ getattr_visit cls c = Some m.
Proof.
  induction classes as [| c classes IH]; simpl; [discriminate |].
  destruct (getattr_visit cls c) as [m' |] eqn:E.
  - intros [= ->]. exists c. auto.
  - intros H. destruct (IH H) as (c' & Hin & Hc'). exists c'. auto.
Qed.

Lemma no_TempsBlockNode_in_declarations (c : string) :
  getattr_visit DeclarationWriter c <> Some m_TempsBlockNode /\
  getattr_visit PxdWriter c <> Some m_TempsBlockNode.
Proof.
  assert (HD : lookup_method c DeclarationWriter_methods
               <> Some m_TempsBlockNode).
  { intros H. apply lookup_method_in in H. simpl in H.
    repeat (destruct H as [H | H]; [discriminate |]). exact H. }
  split; [exact HD |].
  unfold getattr_visit.
  destruct (lookup_method c PxdWriter_methods) as [m |] eqn:E; [| exact HD].
  apply lookup_method_in in E. simpl in E.
  destruct E as [E | [E | []]]; injection E as _ <-; discriminate.
Qed.

(** X3. Only the full writer names temporaries.  A visit by
    [DeclarationWriter] or by [PxdWriter] leaves the table of names and
    the block counter as they were; a visit by [CodeWriter] may add names
    or rename a handle, and never drops a handle that had a name. *)
Theorem temporaries_belong_to_CodeWriter (repr : string -> string)
    (n : node) (w : writer) :
  (tempnames (final (visit repr DeclarationWriter n w)) = tempnames w /\
   tempblockindex (final (visit repr DeclarationWriter n w)) =
   tempblockindex w) /\
  (tempnames (final (visit repr PxdWriter n w)) = tempnames w /\
   tempblockindex (final (visit repr PxdWriter n w)) = tempblockindex w) /\
  (forall h,
     is_Some (tempnames w !! h) ->
     is_Some (tempnames (final (visit repr CodeWriter n w)) !! h)).
Proof.
  assert (Hsame : forall cls, cls <> CodeWriter ->
    forall n', respects
      (fun w w' => tempnames w' = tempnames w /\
                   tempblockindex w' = tempblockindex w)
      (visit repr cls n')).
  { intros cls Hcls n'.
    induction n' as [n' IH] using node_descendant_ind. rewrite visit_eq.
    destruct (find_handler cls (mro n')) as [m |] eqn:E.
    - apply respects_call_method; auto.
      + intros w1 w2 w3 [H1 H2] [H3 H4]. split; congruence.
      + intros ->. exfalso.
        apply find_handler_in in E as (c & _ & Hc).
        destruct (no_TempsBlockNode_in_declarations c) as [HD HP].
        destruct cls; [exact (HD Hc) | exact (Hcls eq_refl) | exact (HP Hc)].
    - intros w0. simpl. auto. }
  split; [apply Hsame; discriminate |].
  split; [apply Hsame; discriminate |].
  apply (respects_visit
           (fun w w' => forall h,
              is_Some (tempnames w !! h) -> is_Some (tempnames w' !! h)));
    auto.
  intros w0 h x h' Hh'. simpl.
  destruct (decide (h = h')) as [-> | Hne].
  - rewrite lookup_insert_eq. eauto.
  - rewrite lookup_insert_ne by exact Hne. exact Hh'.
Qed.

(** ** Expressions *)

Lemma descendant_trans (a b c : node) :
  descendant a b -> descendant b c -> descendant a c.
Proof.
  intros Hab Hbc. induction Hbc as [b c Hin | b m c Hbm IH Hin].
  - exact (desc_step a b c Hab Hin).
  - exact (desc_step a m c (IH Hab) Hin).
Qed.

(** X4. An expression stays on its line.  When the node visited and all
    the nodes inside it are of kinds whose methods end no line (names,
    literals, operators, calls, declarators other than of functions, ...),
    the visit commits no line and leaves the indent level alone: all it
    does to the buffer is to add text to the line in progress.  This holds
    on return and on raise. *)
Theorem expressions_stay_on_one_line (repr : string -> string)
    (cls : writer_class) (n : node) :
  (forall c, c = n \/ descendant c n ->
     exists m, find_handler cls (mro c) = Some m /\ ends_line m = false) ->
  forall w,
    LinesResult.lines (result (final (visit repr cls n w))) =
    LinesResult.lines (result w) /\
    numindents (final (visit repr cls n w)) = numindents w /\
    exists text,
      LinesResult.s (result (final (visit repr cls n w))) =
      LinesResult.s (result w) +:+ text.
Proof.
  set (R := fun w w' : writer =>
    LinesResult.lines (result w') = LinesResult.lines (result w) /\
    numindents w' = numindents w /\
    exists text,
      LinesResult.s (result w') = LinesResult.s (result w) +:+ text).
  enough (H : (forall c, c = n \/ descendant c n ->
                 exists m, find_handler cls (mro c) = Some m /\
                           ends_line m = false) ->
              respects R (visit repr cls n)) by exact H.
  induction n as [n IH] using node_descendant_ind. intros Hall.
  rewrite visit_eq.
  destruct (Hall n (or_introl eq_refl)) as (m & Hm & Hends). rewrite Hm.
  apply respects_call_method.
  - intros w. repeat split. exists EmptyString.
    rewrite append_nil_r. reflexivity.
  - intros w1 w2 w3 (H1 & H2 & t1 & H3) (H4 & H5 & t2 & H6).
    repeat split; try congruence.
    exists (t1 +:+ t2). rewrite H6, H3, append_assoc. reflexivity.
  - intros w x. repeat split. exists x. reflexivity.
  - intros Hc. congruence.
  - intros _. split; intros; (repeat split); exists EmptyString;
      rewrite append_nil_r; reflexivity.
  - intros c Hc. apply IH; [exact Hc |].
    intros c' [-> | Hc']; apply Hall; right;
      [exact Hc | exact (descendant_trans _ _ _ Hc' Hc)].
Qed.

(** ** Temporaries: naming and reference *)

(** X5. What a block of temporaries names, a reference inside it reads
    back: when the body of the block is a reference to the handle in slot
    [i] of the block (its last slot, if it is listed more than once), the
    visit puts the name [temp_name b i], with [b] the block counter at
    entry, and nothing else.  A reference to a handle that no block has
    named raises [KeyError] for that handle and puts nothing. *)
Theorem temporary_reference_reads_its_name (repr : string -> string)
    (type type' : list string) (temps : list handle) (i : nat) (h : handle)
    (w : writer) :
  nth_error temps i = Some h ->
  (forall j, (i < j)%nat -> nth_error temps j <> Some h) ->
  (exists w',
     visit repr CodeWriter
       (Node ("TempsBlockNode" :: type)
          (TempsBlockNode temps
             (Node ("TempRefNode" :: type') (TempRefNode h)))) w
     = Returns w' /\
     result w' =
     LinesResult.put (result w)
       (temp_name (tempblockindex w) (Z.of_nat i))) /\
  (forall h',
     ~ In h' temps -> tempnames w !! h' = None ->
     exists w',
       visit repr CodeWriter
         (Node ("TempsBlockNode" :: type)
            (TempsBlockNode temps
               (Node ("TempRefNode" :: type') (TempRefNode h')))) w
       = Raises (KeyError h') w' /\
       result w' = result w).
Proof.
  intros Hnth Hlast.
  destruct (name_temps temps 0 w)
    as (w0 & Hrun & Hres & Hind & Hidx & Hout & Hin).
  set (w1 := set_tempblockindex (tempblockindex w0 + 1) w0).
  assert (Hvisit : forall body,
    visit repr CodeWriter
      (Node ("TempsBlockNode" :: type) (TempsBlockNode temps body)) w
    = visit repr CodeWriter body w1).
  { intros body.
    rewrite (visit_dispatch _ _ _ _ _ m_TempsBlockNode) by reflexivity.
    unfold call_method; cbn [fields_of]. unfold visit_TempsBlockNode.
    unfold for_each_enum, seq. rewrite Hrun. reflexivity. }
  assert (Href : forall x,
    visit repr CodeWriter (Node ("TempRefNode" :: type') (TempRefNode x)) w1
    = visit_TempRefNode x w1).
  { intros x.
    rewrite (visit_dispatch _ _ _ _ _ m_TempRefNode) by reflexivity.
    reflexivity. }
  split.
  - rewrite Hvisit, Href. unfold visit_TempRefNode.
    change (tempnames w1) with (tempnames w0).
    rewrite (Hin i h Hnth Hlast). eexists. split; [reflexivity |].
    simpl. rewrite Hres. reflexivity.
  - intros h' Hh' Hnone. rewrite Hvisit, Href. unfold visit_TempRefNode.
    change (tempnames w1) with (tempnames w0).
    rewrite (Hout h' Hh'), Hnone. eexists. split; [reflexivity |].
    simpl. exact Hres.
Qed.

(** ** Lists of items *)

(** X6. [comma_separated_list] joins: when every item writes a text of
    its own and no default is asked for, the list puts the texts of the
    items in order with [", "] between two neighbours, none before the
    first and none after the last; an empty list puts nothing. *)
Theorem comma_separated_list_joins_items (v : node -> M)
    (text : node -> string) (items : list node) (w : writer) :
  (forall item w', In item items -> v item w' = put (text item) w') ->
  comma_separated_list v items false w =
  put (join ", " (map text items)) w.
Proof.
  intros H. apply comma_separated_list_join.
  intros item w' Hitem. split; [apply H; exact Hitem | reflexivity].
Qed.

(** ** Assembling a line *)

Lemma put_nil (w : writer) : put EmptyString w = Returns w.
Proof.
  destruct w as [[ls cur] k names b].
  unfold put, set_result, LinesResult.put. simpl.
  rewrite append_nil_r. reflexivity.
Qed.

Lemma when_put (c : bool) (x : string) (w : writer) :
  when c (put x) w = put (if c then x else EmptyString) w.
Proof. destruct c; [reflexivity | symmetry; apply put_nil]. Qed.

Lemma seq_ext_l (a a' b : M) (w : writer) :
  (forall w', a w' = a' w') -> (a ;; b) w = (a' ;; b) w.
Proof. intros H. unfold seq. rewrite H. reflexivity. Qed.

Lemma seq_flatten (h a b rest : M) (w : writer) :
  (h ;; (a ;; b) ;; rest) w = (h ;; a ;; b ;; rest) w.
Proof. apply seq_ext_r. intros w'. apply seq_assoc. Qed.

Lemma startline_absorb (x y : string) (a rest : M) (w : writer) :
  (forall w', a w' = put y w') ->
  (startline x ;; a ;; rest) w = (startline (x +:+ y) ;; rest) w.
Proof.
  intros H. unfold seq at 1 2 3. unfold startline at 1 2. rewrite H.
  unfold put, set_result, LinesResult.put. simpl.
  rewrite !append_assoc. reflexivity.
Qed.

Lemma startline_endline (x y : string) (rest : M) (w : writer) :
  (startline x ;; endline y ;; rest) w = (line (x +:+ y) ;; rest) w.
Proof.
  unfold line, seq, startline, endline, set_result, LinesResult.putline,
    LinesResult.newline, LinesResult.put. simpl.
  rewrite !append_assoc, append_nil_r. reflexivity.
Qed.

Lemma startline_endline_last (x y : string) (w : writer) :
  (startline x ;; endline y) w = line (x +:+ y) w.
Proof.
  unfold line, seq, startline, endline, set_result, LinesResult.putline,
    LinesResult.newline, LinesResult.put. simpl.
  rewrite !append_assoc, append_nil_r. reflexivity.
Qed.

Lemma put_absorb (x y : string) (a rest : M) (w : writer) :
  (forall w', a w' = put y w') ->
  (put x ;; a ;; rest) w = (put (x +:+ y) ;; rest) w.
Proof.
  intros H. unfold seq at 1 2 3. unfold put at 1 2. rewrite H.
  unfold put, set_result, LinesResult.put. simpl.
  rewrite !append_assoc. reflexivity.
Qed.

Lemma put_absorb_last (x y : string) (a : M) (w : writer) :
  (forall w', a w' = put y w') -> (put x ;; a) w = put (x +:+ y) w.
Proof.
  intros H. unfold seq. unfold put at 1. rewrite H.
  unfold put, set_result, LinesResult.put. simpl.
  rewrite !append_assoc. reflexivity.
Qed.

Lemma put_put_eq (x y : string) (w : writer) :
  (put x ;; put y) w = put (x +:+ y) w.
Proof. apply put_absorb_last. reflexivity. Qed.

Lemma join_app_cons (sep : string) (a : string) (l : list string)
    (x : string) (l2 : list string) :
  join sep (a :: (l ++ x :: l2)) =
  join sep (a :: l) +:+ sep +:+ join sep (x :: l2).
Proof.
  revert a. induction l as [| b l IH]; intros a.
  - reflexivity.
  - change (join sep (a :: ((b :: l) ++ x :: l2)))
      with (a +:+ sep +:+ join sep (b :: (l ++ x :: l2))).
    change (join sep (a :: b :: l)) with (a +:+ sep +:+ join sep (b :: l)).
    rewrite IH, !append_assoc. reflexivity.
Qed.

Lemma ltb_0_succ (n : nat) : (0 <? Z.of_nat (S n))%Z = true.
Proof. apply Z.ltb_lt. lia. Qed.

Lemma ltb_0_plus_1 (n : nat) : (0 <? Z.of_nat n + 1)%Z = true.
Proof. apply Z.ltb_lt. lia. Qed.

(** ** Signatures *)

(** X7. The parameters of a [def] are joined like a list: when every
    argument writes a text of its own, the header line is [def], the name
    (the name of the entry if there is one), and between the parentheses
    the arguments, the starred parameter and the double-starred one, in
    that order, with [", "] between two neighbours and nowhere else; the
    body follows one level deeper. *)
Theorem function_header_joins_parameters (v : node -> M)
    (text : node -> string) (entry_name : option string) (name : string)
    (args : list node) (star_arg_name starstar_arg_name : option string)
    (body : node) (w : writer) :
  (forall arg w', In arg args -> v arg w' = put (text arg) w') ->
  visit_FuncDefNode v entry_name name args star_arg_name starstar_arg_name
    body w =
  (line ("def " +:+ default name entry_name +:+ "(" +:+
         join ", " (map text args ++ starred "*" star_arg_name ++
                    starred "**" starstar_arg_name) +:+
         "):") ;;
   indent ;; v body ;; dedent) w.
Proof.
  intros H. unfold visit_FuncDefNode. cbv zeta.
  assert (Hargs : forall w',
    comma_separated_list v args false w' = put (join ", " (map text args)) w')
    by (intros w'; apply comma_separated_list_join;
        intros item w'' Hitem; split; [apply H; exact Hitem | reflexivity]).
  assert (Hhead : forall rest,
    (match entry_name with
     | Some entry_name' => startline ("def " +:+ entry_name' +:+ "(")
     | None => startline ("def " +:+ name +:+ "(")
     end ;; rest) w =
    (startline ("def " +:+ default name entry_name +:+ "(") ;; rest) w)
    by (intros rest; destruct entry_name; reflexivity).
  rewrite Hhead. clear Hhead.
  rewrite (startline_absorb _ _ _ _ _ Hargs).
  destruct args as [| a args];
    destruct star_arg_name as [star |];
    destruct starstar_arg_name as [starstar |];
    cbn [length map starred];
    rewrite ?ltb_0_succ, ?ltb_0_plus_1, ?seq_assoc;
    repeat first
      [ rewrite seq_flatten
      | rewrite (startline_absorb _ _ _ _ _ (when_put _ _))
      | rewrite (startline_absorb _ _ _ _ _ (fun w' => eq_refl (put _ w')))
      | rewrite (startline_absorb _ EmptyString _ _ _
                   (fun w' => eq_sym (put_nil w'))) ];
    rewrite startline_endline;
    apply seq_ext_l; intros w'; f_equal;
    cbn [app]; rewrite ?List.app_nil_r, ?join_app_cons;
    cbn [join String.concat];
    change (Z.of_nat 0) with 0%Z; cbn [Z.ltb Z.compare];
    rewrite ?append_assoc, ?append_nil_r, ?append_nil_l; reflexivity.
Qed.

(** ** Calls *)

Lemma join_cons_cat (sep x : string) (l : list string) :
  join sep (x :: l) = x +:+ cat (map (fun y => sep +:+ y) l).
Proof.
  revert x. induction l as [| y l IH]; intros x.
  - cbn. rewrite append_nil_r. reflexivity.
  - change (join sep (x :: y :: l)) with (x +:+ sep +:+ join sep (y :: l)).
    rewrite IH. cbn [map cat fold_right]. rewrite append_assoc. reflexivity.
Qed.

Lemma seq_ret_l (b : M) (w : writer) : (ret ;; b) w = b w.
Proof. reflexivity. Qed.

Lemma visit_enumerated_from (v : node -> M) (text : node -> string)
    (sep : string) (args : list node) (i : Z) (w : writer) :
  (forall arg w', In arg args -> v arg w' = put (text arg) w') ->
  (0 < i)%Z ->
  for_each_enum_from
    (fun i arg => when (negb (i =? 0)%Z) (put sep) ;; v arg) i args w =
  put (cat (map (fun arg => sep +:+ text arg) args)) w.
Proof.
  revert i w. induction args as [| a args IH]; intros i w H Hi.
  - simpl. symmetry. apply put_nil.
  - cbn [for_each_enum_from map cat fold_right].
    assert (Hne : (i =? 0)%Z = false) by (apply Z.eqb_neq; lia).
    rewrite Hne. cbn [negb when]. unfold seq.
    rewrite put_eq. rewrite (H a) by (left; reflexivity). rewrite put_eq.
    rewrite IH by (try lia; intros; apply H; right; assumption).
    rewrite put_eq. cbn. rewrite !append_assoc. reflexivity.
Qed.

Lemma visit_enumerated_joins (v : node -> M) (text : node -> string)
    (sep : string) (args : list node) (w : writer) :
  (forall arg w', In arg args -> v arg w' = put (text arg) w') ->
  visit_enumerated v sep args w = put (join sep (map text args)) w.
Proof.
  intros H. unfold visit_enumerated, for_each_enum.
  destruct args as [| a args].
  - simpl. symmetry. apply put_nil.
  - cbn [for_each_enum_from map]. rewrite join_cons_cat, seq_assoc.
    change (negb (0 =? 0)%Z) with false. cbn [when].
    rewrite seq_ret_l. unfold seq at 1.
    rewrite (H a) by (left; reflexivity). rewrite put_eq.
    rewrite (visit_enumerated_from v text)
      by (try lia; intros; apply H; right; assumption).
    rewrite !put_eq. cbn. rewrite List.map_map, append_assoc. reflexivity.
Qed.

(** X8. A simple call is its callee and, between parentheses, its
    arguments joined by [","] without a space; the callee stands in
    parentheses of its own unless it is atomic, a name, an attribute or
    a simple call.  With no argument the parentheses are empty. *)
Theorem simple_call_joins_arguments (v : node -> M) (text : node -> string)
    (function : node) (args : list node) (w : writer) :
  (forall w', v function w' = put (text function) w') ->
  (forall arg w', In arg args -> v arg w' = put (text arg) w') ->
  visit_SimpleCallNode v function (Some args) None w =
  put ((if isinstance function
             ["AtomicExprNode"; "SimpleCallNode"; "NameNode";
              "AttributeNode"]
        then text function
        else "(" +:+ text function +:+ ")") +:+
       "(" +:+ join "," (map text args) +:+ ")") w.
Proof.
  intros Hf Hargs. unfold visit_SimpleCallNode.
  assert (Henum : forall w',
    match Some args, @None (list node) with
    | Some ((_ :: _) as args'), _ => visit_enumerated v "," args'
    | _, Some args' => visit_enumerated v "," args'
    | _, None => visit_enumerated v "," []
    end w' = put (join "," (map text args)) w').
  { intros w'. destruct args as [| a args]; cbv beta iota.
    - apply visit_enumerated_joins. intros arg w'' [].
    - apply (visit_enumerated_joins v text "," (a :: args)). exact Hargs. }
  destruct (isinstance function _).
  - unfold seq at 1. rewrite Hf. rewrite put_eq.
    rewrite (put_absorb _ _ _ _ _ Henum), put_put_eq.
    rewrite !put_eq. cbn. rewrite !append_assoc. reflexivity.
  - rewrite seq_assoc, seq_flatten.
    rewrite (put_absorb _ _ _ _ _ Hf).
    rewrite (put_absorb _ _ _ _ _ (fun w' => eq_refl (put ")" w'))).
    rewrite (put_absorb _ _ _ _ _ (fun w' => eq_refl (put "(" w'))).
    rewrite (put_absorb _ _ _ _ _ Henum).
    rewrite (put_absorb_last _ _ _ _ (fun w' => eq_refl (put ")" w'))).
    rewrite !append_assoc. reflexivity.
Qed.

(** ** The declarations writer and statements *)

Lemma find_handler_skip (cls : writer_class) (before rest : list string) :
  (forall c, In c before -> getattr_visit cls c = None) ->
  find_handler cls (before ++ rest) = find_handler cls rest.
Proof.
  induction before as [| c before IH]; intros H; simpl.
  - reflexivity.
  - rewrite (H c) by (left; reflexivity).
    apply IH. intros c' Hc'. apply H. right. assumption.
Qed.

(** X9. The declarations writer passes over statements it has no rule
    for: a node that is a statement (some class of it is [StatNode]) and
    whose classes before [StatNode] have no method in [PxdWriter] is
    visited without a word, whatever it holds, and the writer is left as
    it was.  Nothing below the node is visited, so nothing below it can
    raise. *)
Theorem PxdWriter_passes_over_statements (repr : string -> string)
    (before after : list string) (fields : attrs) (w : writer) :
  (forall c, In c before -> getattr_visit PxdWriter c = None) ->
  visit repr PxdWriter (Node (before ++ "StatNode" :: after) fields) w
  = Returns w.
Proof.
  intros H. rewrite visit_eq. unfold mro. cbn [type_of].
  rewrite <- List.app_assoc, (find_handler_skip _ _ _ H).
  cbn [app find_handler].
  change (getattr_visit PxdWriter "StatNode")
    with (Some m_PxdWriter_StatNode).
  destruct fields; reflexivity.
Qed.

(** X10. The writers derived from [DeclarationWriter] override none of
    its methods: a class name that has a [visit_] method in
    [DeclarationWriter] gets that same method in [CodeWriter] and in
    [PxdWriter], so a node whose own class has one is handed to it by
    every writer. *)
Theorem writers_share_declaration_methods (c : string) (m : method) :
  getattr_visit DeclarationWriter c = Some m ->
  getattr_visit CodeWriter c = Some m /\
  getattr_visit PxdWriter c = Some m /\
  (forall repr cls type fields,
     visit repr cls (Node (c :: type) fields) =
     call_method (visit repr cls) repr m (Node (c :: type) fields)).
Proof.
  intros H.
  assert (HC : getattr_visit CodeWriter c = Some m /\
               getattr_visit PxdWriter c = Some m).
  { unfold getattr_visit in H. apply lookup_method_in in H.
    unfold DeclarationWriter_methods in H. cbn [In] in H.
    repeat (destruct H as [H | H];
            [injection H as <- <-; split; reflexivity |]).
    destruct H. }
  destruct HC as [HC HP]. split; [exact HC |]. split; [exact HP |].
  intros repr cls type fields. apply visit_dispatch.
  destruct cls; assumption.
Qed.

(** ** Assignments *)

(** X11. A cascaded assignment is one line: when the targets and the
    value write texts of their own, the line committed is, after the
    indentation, every target followed by [" = "], in order, and then
    the value. *)
Theorem cascaded_assignment_is_one_line (v : node -> M)
    (text : node -> string) (lhs_list : list node) (rhs : node)
    (w : writer) :
  (forall lhs w', In lhs lhs_list -> v lhs w' = put (text lhs) w') ->
  (forall w', v rhs w' = put (text rhs) w') ->
  visit_CascadedAssignmentNode v lhs_list rhs w =
  line (cat (map (fun lhs => text lhs +:+ " = ") lhs_list) +:+ text rhs) w.
Proof.
  intros Hl Hr. unfold visit_CascadedAssignmentNode.
  assert (Hlist : forall w',
    for_each (fun lhs => v lhs ;; put " = ") lhs_list w' =
    put (cat (map (fun lhs => text lhs +:+ " = ") lhs_list)) w').
  { intros w'. apply for_each_put. intros lhs w'' Hlhs.
    unfold seq. rewrite (Hl lhs w'' Hlhs). apply put_put_eq. }
  rewrite (startline_absorb _ _ _ _ _ Hlist).
  rewrite (startline_absorb _ _ _ _ _ Hr).
  rewrite startline_endline_last.
  rewrite !append_nil_l, append_nil_r. reflexivity.
Qed.

(** ** Basic C types *)

Lemma tuple_index_None {A : Type} (t : list A) (i : Z) :
  tuple_index t i = None <->
  (i < - Z.of_nat (length t) \/ Z.of_nat (length t) <= i)%Z.
Proof.
  unfold tuple_index.
  destruct (Z.leb_spec 0 i) as [H0 | H0].
  - rewrite List.nth_error_None. lia.
  - destruct (Z.leb_spec (- Z.of_nat (length t)) i) as [H1 | H1].
    + rewrite List.nth_error_None. lia.
    + split; [intros _; lia | reflexivity].
Qed.

(** X12. A basic C type is written as its sign prefix, then [short ] or
    [long ] as many times as the magnitude of [longness] (negative for
    short), then its name, all put at once.  The sign is read from the
    three prefixes by index, counting from the end when negative; an
    index below -3 or above 2 raises [IndexError] before anything is
    put.  A type that is not basic is written as its name alone. *)
Theorem simple_base_type_text (name : string) (is_basic_c_type : bool)
    (signed longness : Z) (w : writer) :
  visit_CSimpleBaseTypeNode (Some name) is_basic_c_type signed longness w =
  (if is_basic_c_type then
     match tuple_index sign_prefixes signed with
     | Some sign =>
         put (sign +:+
              (if (longness <? 0)%Z then str_mul "short " (- longness)
               else str_mul "long " longness) +:+
              name) w
     | None => Raises IndexError w
     end
   else put name w) /\
  (tuple_index sign_prefixes signed = None <->
   (signed < -3 \/ 2 < signed)%Z) /\
  tuple_index sign_prefixes (-1) = Some "signed ".
Proof.
  split; [| split].
  - unfold visit_CSimpleBaseTypeNode, sign_prefixes.
    destruct is_basic_c_type; cbn [when put_obj]; [| reflexivity].
    destruct (tuple_index ["unsigned "; EmptyString; "signed "] signed)
      as [sign |]; [| reflexivity].
    rewrite seq_assoc.
    destruct (Z.ltb_spec longness 0) as [Hneg | Hpos].
    + rewrite (put_absorb _ _ _ _ _ (fun w' => eq_refl (put _ w'))).
      rewrite put_put_eq, append_assoc. reflexivity.
    + rewrite (put_absorb _ (str_mul "long " longness) _ _ _).
      * rewrite put_put_eq, append_assoc. reflexivity.
      * intros w'. destruct (Z.ltb_spec 0 longness) as [H | H].
        { reflexivity. }
        { replace longness with 0%Z by lia. symmetry. apply put_nil. }
  - rewrite tuple_index_None. simpl. lia.
  - reflexivity.
Qed.

(** ** Indentation *)



(** ** Statement lists compose *)

(** X14. Statement lists concatenate: visiting the statements of two
    lists, both with statements, as one list is visiting the first list
    and then the second.  (A list without statements is not neutral: it
    writes [pass].) *)
Theorem statement_lists_concatenate (repr : string -> string)
    (cls : writer_class) (type : list string)
    (stat1 : node) (stats1 : list node) (stat2 : node) (stats2 : list node)
    (w : writer) :
  visit repr cls
    (Node ("StatListNode" :: type)
       (StatListNode ((stat1 :: stats1) ++ stat2 :: stats2))) w =
  (visit repr cls
     (Node ("StatListNode" :: type) (StatListNode (stat1 :: stats1))) ;;
   visit repr cls
     (Node ("StatListNode" :: type) (StatListNode (stat2 :: stats2)))) w.
Proof.
  assert (H : forall stat stats,
    visit repr cls
      (Node ("StatListNode" :: type) (StatListNode (stat :: stats))) =
    for_each (visit repr cls) (stat :: stats)).
  { intros. rewrite (visit_dispatch _ _ _ _ _ m_StatListNode)
      by (destruct cls; reflexivity). reflexivity. }
  change ((stat1 :: stats1) ++ stat2 :: stats2)%list
    with (stat1 :: (stats1 ++ stat2 :: stats2))%list.
  rewrite !H.
  change (stat1 :: (stats1 ++ stat2 :: stats2))%list
    with ((stat1 :: stats1) ++ stat2 :: stats2)%list.
  apply for_each_app.
Qed.

(** ** The writers on declarations *)

Section Same.

Variables v1 v2 : node -> M.

Lemma same_refl (m : M) : same m m.
Proof. intros w. reflexivity. Qed.

Lemma same_seq (a a' b b' : M) :
  same a a' -> same b b' -> same (a ;; b) (a' ;; b').
Proof.
  intros Ha Hb w. unfold seq. rewrite Ha.
  destruct (a' w); [apply Hb | reflexivity].
Qed.

Lemma same_when (c : bool) (a a' : M) :
  same a a' -> same (when c a) (when c a').
Proof. destruct c; [trivial | intros _; apply same_refl]. Qed.

Lemma same_for_each {A : Type} (f g : A -> M) (l : list A) :
  (forall x, In x l -> same (f x) (g x)) ->
  same (for_each f l) (for_each g l).
Proof.
  induction l as [| x l IH]; intros H; simpl.
  - apply same_refl.
  - apply same_seq; [apply H; left; reflexivity |].
    apply IH. intros y Hy. apply H. right. assumption.
Qed.

Lemma same_for_each_enum {A : Type} (f g : Z -> A -> M) (l : list A) :
  (forall i x, In x l -> same (f i x) (g i x)) ->
  same (for_each_enum f l) (for_each_enum g l).
Proof.
  unfold for_each_enum. generalize 0.
  induction l as [| x l IH]; intros i H; simpl.
  - apply same_refl.
  - apply same_seq; [apply H; left; reflexivity |].
    apply IH. intros j y Hy. apply H. right. assumption.
Qed.

Lemma same_visit_enumerated (sep : string) (args : list node) :
  (forall x, In x args -> same (v1 x) (v2 x)) ->
  same (visit_enumerated v1 sep args) (visit_enumerated v2 sep args).
Proof.
  intros H. apply same_for_each_enum. intros i x Hx.
  apply same_seq; [apply same_refl | apply H, Hx].
Qed.

Lemma same_output_default (output_rhs : bool) (item : node) :
  (forall c, In c (subnodes item) -> same (v1 c) (v2 c)) ->
  same (output_default v1 output_rhs item)
       (output_default v2 output_rhs item).
Proof.
  intros H. unfold output_default. destruct output_rhs; [| apply same_refl].
  destruct item as [type fields].
  destruct fields; try apply same_refl;
    match goal with
    | |- context [match ?d with Some _ => _ | None => _ end] => destruct d
    end;
    try apply same_refl;
    (apply same_seq; [apply same_refl |]);
    apply H; unfold subnodes; simpl; auto.
Qed.

Lemma same_comma_separated_list (items : list node) (output_rhs : bool) :
  (forall x, In x items -> same (v1 x) (v2 x)) ->
  (forall x c, In x items -> In c (subnodes x) -> same (v1 c) (v2 c)) ->
  same (comma_separated_list v1 items output_rhs)
       (comma_separated_list v2 items output_rhs).
Proof.
  induction items as [| item rest IH]; intros H1 H2.
  - apply same_refl.
  - destruct rest as [| item' rest'].
    + apply H1. left. reflexivity.
    + change (same
                (v1 item ;; output_default v1 output_rhs item ;;
                 put ", " ;;
                 comma_separated_list v1 (item' :: rest') output_rhs)
                (v2 item ;; output_default v2 output_rhs item ;;
                 put ", " ;;
                 comma_separated_list v2 (item' :: rest') output_rhs)).
      apply same_seq; [apply H1; left; reflexivity |].
      apply same_seq.
      { apply same_output_default. intros c Hc.
        apply (H2 item c); [left; reflexivity | assumption]. }
      apply same_seq; [apply same_refl |].
      apply IH.
      * intros x Hx. apply H1. right. assumption.
      * intros x c Hx Hc. apply (H2 x c); [right |]; assumption.
Qed.

Local Ltac member' :=
  unfold subnodes;
  cbn [fields_of opt_nodes opt_list_nodes map fst snd In] in *;
  rewrite ?List.in_app_iff; cbn [In map fst snd];
  solve [intuition (auto using List.in_map)].

Local Ltac child' H :=
  apply H;
  first
    [ apply desc_child; member'
    | match type of H with
      | context [Node ?t ?f] =>
          apply (desc_step _ (Node t f)); [apply desc_child; member' | member']
      end ].

Local Ltac sm H :=
  cbv beta;
  first
    [ simple apply same_refl
    | lazymatch goal with
      | |- same (seq _ _) (seq _ _) => apply same_seq; [sm H | sm H]
      | |- same (when _ _) (when _ _) => apply same_when; sm H
      | |- same (for_each _ _) (for_each _ _) =>
          apply same_for_each;
          let x := fresh "x" in
          let Hx := fresh "Hx" in
          intros x Hx;
          try pose proof (List.in_map fst _ _ Hx);
          try pose proof (List.in_map snd _ _ Hx);
          sm H
      | |- same (visit_enumerated _ _ _) (visit_enumerated _ _ _) =>
          apply same_visit_enumerated; intros; child' H
      | |- same (comma_separated_list _ _ _) (comma_separated_list _ _ _) =>
          apply same_comma_separated_list;
          [ intros; child' H
          | let x := fresh "x" in
            let c := fresh "c" in
            let Hx := fresh "Hx" in
            let Hc := fresh "Hc" in
            intros x c Hx Hc; apply H;
            apply (desc_step c x); [apply desc_child; exact Hc | member'] ]
      | |- same (visitchild _ ?c) (visitchild _ ?c) =>
          unfold visitchild; sm H
      | |- same (match ?x with _ => _ end) (match ?x with _ => _ end) =>
          destruct x; sm H
      | |- same (_ _) (_ _) => child' H
      end ].

(** A method does the same under two visitors that do the same on the
    nodes below the node it is called on. *)
Lemma same_call_method (repr : string -> string) (m : method) (n : node) :
  (forall c, descendant c n -> same (v1 c) (v2 c)) ->
  same (call_method v1 repr m n) (call_method v2 repr m n).
Proof.
  intros H. destruct n as [type fields].
  destruct m; destruct fields;
    try apply same_refl;
    unfold call_method; cbn [fields_of];
    unfold visit_Node, visit_ModuleNode, visit_StatListNode,
      visit_CDefExternNode, visit_CPtrDeclaratorNode,
      visit_CReferenceDeclaratorNode, visit_CArrayDeclaratorNode,
      visit_CFuncDeclaratorNode, visit_CNameDeclaratorNode,
      visit_CSimpleBaseTypeNode, visit_CComplexBaseTypeNode,
      visit_CNestedBaseTypeNode, visit_TemplatedTypeNode, visit_CVarDefNode,
      visit_CStructOrUnionDefNode, visit_CppClassNode, visit_CEnumDefNode,
      visit_container_node, visit_CEnumDefItemNode, visit_CClassDefNode,
      visit_PyClassDefNode, visit_CTypeDefNode, visit_FuncDefNode,
      visit_CArgDeclNode, visit_CImportStatNode, visit_NameNode,
      visit_IntNode, visit_NoneNode, visit_NotNode, visit_DecoratorNode,
      visit_BinopNode, visit_AttributeNode, visit_BoolNode, visit_StringNode,
      visit_PassStatNode, visit_ListNode, visit_TupleNode, visit_UnicodeNode,
      visit_AssertStatNode, visit_SingleAssignmentNode,
      visit_CascadedAssignmentNode, visit_PrintStatNode, visit_ForInStatNode,
      visit_IfStatNode, visit_SequenceNode, visit_SimpleCallNode,
      visit_GeneralCallNode, visit_ExprStatNode, visit_InPlaceAssignmentNode,
      visit_WithStatNode, visit_TryFinallyStatNode, visit_TryExceptStatNode,
      visit_ExceptClauseNode, visit_ReturnStatNode, visit_ReraiseStatNode,
      visit_ImportNode, visit_TempsBlockNode, visit_BytesNode,
      visit_ContinueStatNode, visit_WhileStatNode, visit_BreakStatNode,
      visit_CoerceToBooleanNode, visit_FloatNode, visit_CoerceToTempNode,
      visit_FromImportStatNode, visit_PrimaryCmpNode, visit_BoolBinopNode,
      visit_IndexNode, visit_NullNode, visit_RaiseStatNode,
      CodeWriter_visit_CFuncDefNode, PxdWriter_visit_CFuncDefNode,
      PxdWriter_visit_StatNode;
    cbv zeta.
  all: solve [sm H].
Qed.

End Same.

Lemma declaration_method_everywhere (c : string) (m : method)
    (cls : writer_class) :
  getattr_visit DeclarationWriter c = Some m -> getattr_visit cls c = Some m.
Proof.
  intros H. destruct cls; [exact H | |];
    unfold getattr_visit in H; apply lookup_method_in in H;
    unfold DeclarationWriter_methods in H; cbn [In] in H;
    repeat (destruct H as [H | H]; [injection H as <- <-; reflexivity |]);
    destruct H.
Qed.

(** X15. Declarations are written alike by the three writers: when the
    own class of the node visited, and of every node inside it, has a
    [visit_] method in [DeclarationWriter], the visit does the same in
    [DeclarationWriter], [CodeWriter] and [PxdWriter], whether it returns
    or raises. *)
Theorem declarations_are_written_alike (repr : string -> string)
    (cls1 cls2 : writer_class) (n : node) :
  (forall c, c = n \/ descendant c n ->
     exists k type fields m,
       c = Node (k :: type) fields /\
       getattr_visit DeclarationWriter k = Some m) ->
  forall w, visit repr cls1 n w = visit repr cls2 n w.
Proof.
  induction n as [n IH] using node_descendant_ind. intros Hall.
  destruct (Hall n (or_introl eq_refl)) as (k & type & fields & m & -> & Hm).
  rewrite
    (visit_dispatch repr cls1 k type fields m
       (declaration_method_everywhere k m cls1 Hm)),
    (visit_dispatch repr cls2 k type fields m
       (declaration_method_everywhere k m cls2 Hm)).
  apply same_call_method. intros c Hc w. apply IH; [exact Hc |].
  intros c' [-> | Hc']; apply Hall; right;
    [exact Hc | exact (descendant_trans _ _ _ Hc' Hc)].
Qed.

(** ** The further properties at concrete trees *)

Local Ltac inside :=
  repeat match goal with
         | H : False |- _ => destruct H
         | H : _ \/ _ |- _ => destruct H
         | H : In _ (subnodes _) |- _ => unfold subnodes in H; cbn in H
         | H : descendant _ _ |- _ => inversion H; clear H; subst
         | H : _ = ?c |- _ => is_var c; subst c
         end.

Lemma expressions_stay_on_one_line_witness :
  (forall c, c = ex_sum \/ descendant c ex_sum ->
     exists m, find_handler CodeWriter (mro c) = Some m /\
               ends_line m = false) /\
  LinesResult.lines (result (final (visit ex_repr CodeWriter ex_sum init)))
  = LinesResult.lines (result init).
Proof.
  assert (H : forall c, c = ex_sum \/ descendant c ex_sum ->
     exists m, find_handler CodeWriter (mro c) = Some m /\
               ends_line m = false).
  { intros c [-> | H]; [eexists; split; reflexivity |].
    unfold ex_sum in H. inside; eexists; split; reflexivity. }
  split; [exact H |].
  exact (proj1 (expressions_stay_on_one_line ex_repr CodeWriter ex_sum H
                  init)).
Defined.

Lemma temporary_reference_reads_its_name_witness :
  nth_error [7%nat; 9%nat] 1 = Some 9%nat /\
  (forall j, (1 < j)%nat -> nth_error [7%nat; 9%nat] j <> Some 9%nat) /\
  exists w',
    visit ex_repr CodeWriter
      (Node ["TempsBlockNode"]
         (TempsBlockNode [7%nat; 9%nat]
            (Node ["TempRefNode"] (TempRefNode 9%nat)))) init
    = Returns w' /\
    result w' = LinesResult.put (result init) "$0_1".
Proof.
  assert (H : forall j,
    (1 < j)%nat -> nth_error [7%nat; 9%nat] j <> Some 9%nat).
  { intros [| [| [| j]]] Hj; simpl; try discriminate; lia. }
  split; [reflexivity |]. split; [exact H |].
  exact (proj1 (temporary_reference_reads_its_name ex_repr [] []
                  [7%nat; 9%nat] 1 9%nat init eq_refl H)).
Defined.

Lemma comma_separated_list_joins_items_witness :
  (forall item w', In item [ex_name "a"; ex_name "b"] ->
     visit ex_repr CodeWriter item w' = put (ex_text item) w') /\
  comma_separated_list (visit ex_repr CodeWriter)
    [ex_name "a"; ex_name "b"] false init = put "a, b" init.
Proof.
  assert (H : forall item w', In item [ex_name "a"; ex_name "b"] ->
    visit ex_repr CodeWriter item w' = put (ex_text item) w').
  { intros item w' [<- | [<- | []]]; reflexivity. }
  split; [exact H |].
  exact (comma_separated_list_joins_items (visit ex_repr CodeWriter) ex_text
           [ex_name "a"; ex_name "b"] init H).
Defined.

Lemma function_header_joins_parameters_witness :
  (forall arg w', In arg [ex_arg "x"; ex_arg "y"] ->
     visit ex_repr CodeWriter arg w' = put (ex_text arg) w') /\
  visit_FuncDefNode (visit ex_repr CodeWriter) None "f"
    [ex_arg "x"; ex_arg "y"] (Some "a") (Some "k") (ex_stats []) init =
  (line "def f(x, y, *a, **k):" ;; indent ;;
   visit ex_repr CodeWriter (ex_stats []) ;; dedent) init.
Proof.
  assert (H : forall arg w', In arg [ex_arg "x"; ex_arg "y"] ->
    visit ex_repr CodeWriter arg w' = put (ex_text arg) w').
  { intros arg w' [<- | [<- | []]]; reflexivity. }
  split; [exact H |].
  exact (function_header_joins_parameters (visit ex_repr CodeWriter) ex_text
           None "f" [ex_arg "x"; ex_arg "y"] (Some "a") (Some "k")
           (ex_stats []) init H).
Defined.

Lemma simple_call_joins_arguments_witness :
  (forall w', visit ex_repr CodeWriter (ex_name "f") w' = put "f" w') /\
  (forall arg w', In arg [ex_int "1"; ex_int "2"] ->
     visit ex_repr CodeWriter arg w' = put (ex_text arg) w') /\
  visit_SimpleCallNode (visit ex_repr CodeWriter) (ex_name "f")
    (Some [ex_int "1"; ex_int "2"]) None init = put "f(1,2)" init.
Proof.
  assert (Hf : forall w',
    visit ex_repr CodeWriter (ex_name "f") w' = put (ex_text (ex_name "f")) w')
    by reflexivity.
  assert (H : forall arg w', In arg [ex_int "1"; ex_int "2"] ->
    visit ex_repr CodeWriter arg w' = put (ex_text arg) w').
  { intros arg w' [<- | [<- | []]]; reflexivity. }
  split; [exact Hf |]. split; [exact H |].
  exact (simple_call_joins_arguments (visit ex_repr CodeWriter) ex_text
           (ex_name "f") [ex_int "1"; ex_int "2"] init Hf H).
Defined.

Lemma PxdWriter_passes_over_statements_witness :
  (forall c, In c ["ExprStatNode"] -> getattr_visit PxdWriter c = None) /\
  visit ex_repr PxdWriter
    (Node ["ExprStatNode"; "StatNode"] (ExprStatNode ex_lambda)) init
  = Returns init.
Proof.
  assert (H : forall c,
    In c ["ExprStatNode"] -> getattr_visit PxdWriter c = None).
  { intros c [<- | []]. reflexivity. }
  split; [exact H |].
  exact (PxdWriter_passes_over_statements ex_repr ["ExprStatNode"] []
           (ExprStatNode ex_lambda) init H).
Defined.

Lemma writers_share_declaration_methods_witness :
  getattr_visit DeclarationWriter "CVarDefNode" = Some m_CVarDefNode /\
  getattr_visit CodeWriter "CVarDefNode" = Some m_CVarDefNode /\
  getattr_visit PxdWriter "CVarDefNode" = Some m_CVarDefNode.
Proof.
  assert (H : getattr_visit DeclarationWriter "CVarDefNode"
              = Some m_CVarDefNode) by reflexivity.
  split; [exact H |].
  destruct (writers_share_declaration_methods "CVarDefNode" m_CVarDefNode H)
    as (HC & HP & _).
  split; [exact HC | exact HP].
Defined.

Lemma cascaded_assignment_is_one_line_witness :
  (forall lhs w', In lhs [ex_name "a"; ex_name "b"] ->
     visit ex_repr CodeWriter lhs w' = put (ex_text lhs) w') /\
  (forall w', visit ex_repr CodeWriter (ex_int "1") w' = put "1" w') /\
  visit_CascadedAssignmentNode (visit ex_repr CodeWriter)
    [ex_name "a"; ex_name "b"] (ex_int "1") init = line "a = b = 1" init.
Proof.
  assert (H : forall lhs w', In lhs [ex_name "a"; ex_name "b"] ->
    visit ex_repr CodeWriter lhs w' = put (ex_text lhs) w').
  { intros lhs w' [<- | [<- | []]]; reflexivity. }
  assert (Hr : forall w',
    visit ex_repr CodeWriter (ex_int "1") w' = put (ex_text (ex_int "1")) w')
    by reflexivity.
  split; [exact H |]. split; [exact Hr |].
  exact (cascaded_assignment_is_one_line (visit ex_repr CodeWriter) ex_text
           [ex_name "a"; ex_name "b"] (ex_int "1") init H Hr).
Defined.

Example sum_of_attribute_and_call :
  visit ex_repr CodeWriter ex_sum init = put "a.b + f(1,2)" init.
Proof. vm_compute. reflexivity. Qed.

Lemma declarations_are_written_alike_witness :
  (forall c, c = ex_ctypedef \/ descendant c ex_ctypedef ->
     exists k type fields m,
       c = Node (k :: type) fields /\
       getattr_visit DeclarationWriter k = Some m) /\
  visit ex_repr PxdWriter ex_ctypedef init =
  visit ex_repr CodeWriter ex_ctypedef init.
Proof.
  assert (H : forall c, c = ex_ctypedef \/ descendant c ex_ctypedef ->
     exists k type fields m,
       c = Node (k :: type) fields /\
       getattr_visit DeclarationWriter k = Some m).
  { intros c [-> | H]; [do 4 eexists; split; reflexivity |].
    unfold ex_ctypedef in H. inside; do 4 eexists; split; reflexivity. }
  split; [exact H |].
  exact (declarations_are_written_alike ex_repr PxdWriter CodeWriter
           ex_ctypedef H init).
Defined.
